(** * Sentry OAuth example server: a shallow embedding of its login core

    The development follows the three server files:
    - [server/services/sentry-oauth.js]  (class [SentryOAuthService]),
    - [server/database.js]               (class [SimpleUserStore]),
    - [server/index.js]                  (the Express route handlers).

    Modelling choices.
    - A JavaScript string is a [string], read as the UTF-8 bytes of a
      well-formed string; [substring] counts bytes, which are the code
      units for ASCII text.
    - A property that may be [undefined] is an [option]; the JSON objects
      received from the provider are records of the properties the code
      reads, each a string or absent ([avatar]: a string or an object).
    - Local ids and HTTP statuses are natural numbers; timestamps are the
      strings the clock gives and are passed in.
    - [Map] is an association list in insertion order.
    - [fetch] is a function from the request to its answer; a computation
      returns its outcome together with the requests it sent.  Logging and
      error reporting ([console], [Sentry.captureException]) are left out.
    - A thrown [Error] is its message.
    - Platform functions ([URLSearchParams], [encodeURIComponent], the URL
      parser) are written after their standards. *)

From Stdlib Require Import String Ascii List Bool Arith Lia.
Import ListNotations.
Open Scope string_scope.

(* ================================================================= *)
(** * JavaScript values used by the code *)

Module Js.

(** Truthiness of a string-or-undefined value: [undefined] and the empty
    string are falsy. *)
Definition truthy (v : option string) : bool :=
  match v with
  | Some s => negb (s =? "")
  | None => false
  end.

(** [a || b] on string-or-undefined operands. *)
Definition or (a b : option string) : option string :=
  if truthy a then a else b.

(** Conversion to string, as in a template literal or in the
    [URLSearchParams] constructor. *)
Definition to_string (v : option string) : string :=
  match v with
  | Some s => s
  | None => "undefined"
  end.

(** Decimal rendering of a non-negative integer (HTTP status codes). *)
Definition digit (n : nat) : ascii := ascii_of_nat (48 + n).

Fixpoint decimal_aux (fuel n : nat) (acc : string) : string :=
  match fuel with
  | 0 => acc
  | S fuel' =>
    let acc' := String (digit (n mod 10)) acc in
    if (n / 10 =? 0)%nat then acc' else decimal_aux fuel' (n / 10) acc'
  end.

Definition number_to_string (n : nat) : string := decimal_aux (S n) n "".

(** [s.split(c)[0]]: the part of [s] before the first [c], all of [s] when
    there is none. *)
Fixpoint before_char (c : ascii) (s : string) : string :=
  match s with
  | EmptyString => EmptyString
  | String a r => if (a =? c)%char then EmptyString else String a (before_char c r)
  end.

(** The part of [s] after the first [c], if [c] occurs. *)
Fixpoint after_char (c : ascii) (s : string) : option string :=
  match s with
  | EmptyString => None
  | String a r => if (a =? c)%char then Some r else after_char c r
  end.

(** The string held by a value that is known to be a string. *)
Definition str (v : option string) : string :=
  match v with
  | Some s => s
  | None => ""
  end.

(** [s.substring(0, n)]. *)
Definition substring_to (n : nat) (s : string) : string := substring 0 n s.

Fixpoint str_all (p : ascii -> bool) (s : string) : bool :=
  match s with
  | EmptyString => true
  | String a r => p a && str_all p r
  end.

End Js.

(* ================================================================= *)
(** * URL encoding: [URLSearchParams], [encodeURIComponent], URL queries *)

Module Url.

Definition in_range (lo hi : nat) (c : ascii) : bool :=
  let n := nat_of_ascii c in ((lo <=? n) && (n <=? hi))%nat.

Definition is_alnum (c : ascii) : bool :=
  in_range 48 57 c || in_range 65 90 c || in_range 97 122 c.

Fixpoint mem_char (c : ascii) (s : string) : bool :=
  match s with
  | EmptyString => false
  | String a r => (a =? c)%char || mem_char c r
  end.

Definition hex_digit (n : nat) : ascii :=
  if (n <? 10)%nat then ascii_of_nat (48 + n) else ascii_of_nat (55 + n).

Definition hex_value (c : ascii) : option nat :=
  let n := nat_of_ascii c in
  if in_range 48 57 c then Some (n - 48)
  else if in_range 65 70 c then Some (n - 55)
  else if in_range 97 102 c then Some (n - 87)
  else None.

Definition percent_byte (c : ascii) : string :=
  let n := nat_of_ascii c in
  String "%" (String (hex_digit (n / 16)) (String (hex_digit (n mod 16)) "")).

(** ** [encodeURIComponent] *)

Definition uri_unreserved (c : ascii) : bool :=
  is_alnum c || mem_char c "-_.!~*'()".

Fixpoint encodeURIComponent (s : string) : string :=
  match s with
  | EmptyString => EmptyString
  | String c r =>
    (if uri_unreserved c then String c "" else percent_byte c)
      ++ encodeURIComponent r
  end.

(** ** [URLSearchParams.prototype.toString]: the
    application/x-www-form-urlencoded serializer *)

Definition form_unreserved (c : ascii) : bool :=
  is_alnum c || mem_char c "*-._".

Definition form_byte (c : ascii) : string :=
  if form_unreserved c then String c ""
  else if (c =? " ")%char then "+"
  else percent_byte c.

Fixpoint form_encode (s : string) : string :=
  match s with
  | EmptyString => EmptyString
  | String c r => form_byte c ++ form_encode r
  end.

Definition Params := list (string * string).

Fixpoint params_toString (ps : Params) : string :=
  match ps with
  | [] => ""
  | (n, v) :: rest =>
    let pair := form_encode n ++ "=" ++ form_encode v in
    match rest with
    | [] => pair
    | _ :: _ => pair ++ "&" ++ params_toString rest
    end
  end.

(** [params.append(name, value)]. *)
Definition params_append (ps : Params) (n v : string) : Params :=
  (ps ++ [(n, v)])%list.

(** [params.get(name)]: the value of the first pair called [name]. *)
Fixpoint params_get (ps : Params) (name : string) : option string :=
  match ps with
  | [] => None
  | (n, v) :: rest => if n =? name then Some v else params_get rest name
  end.

(** The characters the serializer writes for a name or a value, and those
    of a whole serialized list. *)
Definition form_char (c : ascii) : bool :=
  is_alnum c || mem_char c "*-._+%".

Definition query_char (c : ascii) : bool :=
  form_char c || mem_char c "=&".

(** ** The application/x-www-form-urlencoded parser *)

Fixpoint split_on (c : ascii) (s : string) : list string :=
  match s with
  | EmptyString => [EmptyString]
  | String a r =>
    if (a =? c)%char then EmptyString :: split_on c r
    else match split_on c r with
         | x :: xs => String a x :: xs
         | [] => [String a EmptyString]
         end
  end.

Fixpoint plus_to_space (s : string) : string :=
  match s with
  | EmptyString => EmptyString
  | String a r =>
    String (if (a =? "+")%char then " "%char else a) (plus_to_space r)
  end.

Fixpoint percent_decode (s : string) : string :=
  match s with
  | EmptyString => EmptyString
  | String a r =>
    if (a =? "%")%char then
      match r with
      | String h (String l r') =>
        match hex_value h, hex_value l with
        | Some x, Some y =>
          String (ascii_of_nat (16 * x + y)) (percent_decode r')
        | _, _ => String a (percent_decode r)
        end
      | _ => String a (percent_decode r)
      end
    else String a (percent_decode r)
  end.

Definition form_decode (s : string) : string :=
  percent_decode (plus_to_space s).

Definition parse_pair (seq : string) : Params :=
  if seq =? "" then []
  else
    let name := Js.before_char "=" seq in
    let value := match Js.after_char "=" seq with
                 | Some v => v
                 | None => ""
                 end in
    [(form_decode name, form_decode value)].

Definition parse_urlencoded (input : string) : Params :=
  flat_map parse_pair (split_on "&" input).

(** ** The query of a parsed URL

    The fragment starts at the first [#]; the query runs from the first
    [?] before it.  The parser's query state percent-encodes the code
    points of the query percent-encode set (controls, space, the double
    quote, [#], [<], [>], bytes above 0x7E) and, for http(s) URLs, the
    single quote. *)

Definition query_encode_set (c : ascii) : bool :=
  let n := nat_of_ascii c in
  ((n <=? 32) || (126 <? n) || (n =? 34) || (n =? 35) || (n =? 60)
   || (n =? 62) || (n =? 39))%nat.

Fixpoint query_encode (s : string) : string :=
  match s with
  | EmptyString => EmptyString
  | String c r =>
    (if query_encode_set c then percent_byte c else String c "")
      ++ query_encode r
  end.

Definition url_query (u : string) : option string :=
  option_map query_encode (Js.after_char "?" (Js.before_char "#" u)).

(** [new URL(u).searchParams]. *)
Definition searchParams (u : string) : Params :=
  match url_query u with
  | Some q => parse_urlencoded q
  | None => []
  end.

End Url.

(* ================================================================= *)
(** * [Map]: keyed collection in insertion order *)

Module JsMap.

(** Keys compared by [SameValueZero]; on numbers and strings that is
    equality. *)
Class Key (K : Type) := {
  keqb : K -> K -> bool;
  keqb_spec : forall x y, keqb x y = true <-> x = y
}.

#[global] Instance nat_key : Key nat :=
  {| keqb := Nat.eqb; keqb_spec := Nat.eqb_eq |}.

#[global] Instance string_key : Key string :=
  {| keqb := String.eqb; keqb_spec := String.eqb_eq |}.

Section Ops.
Context {K V : Type} `{Key K}.

Definition t := list (K * V).

Definition empty : t := [].

Fixpoint get (m : t) (k : K) : option V :=
  match m with
  | [] => None
  | (k', v) :: r => if keqb k' k then Some v else get r k
  end.

(** [set] keeps the position of a key that is already present and
    appends a new key at the end. *)
Fixpoint set (m : t) (k : K) (v : V) : t :=
  match m with
  | [] => [(k, v)]
  | (k', v') :: r =>
    if keqb k' k then (k', v) :: r else (k', v') :: set r k v
  end.

Fixpoint delete (m : t) (k : K) : t :=
  match m with
  | [] => []
  | (k', v') :: r =>
    if keqb k' k then r else (k', v') :: delete r k
  end.

Definition size (m : t) : nat := length m.

Definition keys (m : t) : list K := map fst m.

Definition values (m : t) : list V := map snd m.
End Ops.

Arguments t : clear implicits.

End JsMap.

(* ================================================================= *)
(** * Data exchanged with the provider *)

(** The [avatar] property of a provider payload: a URL string, or an
    object with optional [avatarUrl] and [url] properties. *)
Module Avatar.

Inductive t :=
| Str (s : string)
| Obj (avatarUrl url : option string).

(** [a?.avatarUrl] *)
Definition avatarUrl_of (a : option t) : option string :=
  match a with
  | Some (Obj au _) => au
  | _ => None
  end.

(** [a?.url] *)
Definition url_of (a : option t) : option string :=
  match a with
  | Some (Obj _ u) => u
  | _ => None
  end.

(** [x || y] with a string-or-undefined [x] and an avatar [y]. *)
Definition or (x : option string) (y : option t) : option t :=
  if Js.truthy x then option_map Str x else y.

End Avatar.

(** A user payload as the provider sends it: every property the code reads
    is a string or absent. *)
Module UserData.
Record t := mk {
  id : option string;
  email : option string;
  name : option string;
  username : option string;
  avatar : option Avatar.t
}.
End UserData.

(** The JSON object answered by the token endpoint. *)
Module TokenData.
Record t := mk {
  access_token : option string;
  token_type : option string;
  scope : option string;
  refresh_token : option string;
  user : option UserData.t;
  user_info : option UserData.t;
  profile : option UserData.t
}.
End TokenData.

(** The normalized profile returned by [getUserInfo] and
    [completeOAuthFlow]. *)
Module SentryUser.
Record t := mk {
  id : string;
  email : string;
  name : string;
  username : option string;
  avatar : option Avatar.t
}.
End SentryUser.

(** A thrown [Error]. *)
Record JsError := mkError { message : string }.

Inductive Result (A : Type) :=
| Ok (a : A)
| Throw (e : JsError).
Arguments Ok {A} a.
Arguments Throw {A} e.

(* ================================================================= *)
(** * [server/database.js]: class [SimpleUserStore] *)

Module User.
Record t := mk {
  id : nat;
  sentry_id : string;
  email : string;
  name : string;
  username : option string;
  avatar_url : option Avatar.t;
  access_token : option string;
  created_at : string;
  updated_at : string
}.
End User.

(** One element of [getStats().users]. *)
Module StatsEntry.
Record t := mk {
  id : nat;
  sentry_id : string;
  email : string;
  name : string;
  created_at : string
}.
End StatsEntry.

Module SimpleUserStore.

Record t := mk {
  users : JsMap.t nat User.t;
  usersBySentryId : JsMap.t string User.t;
  usersByEmail : JsMap.t string User.t;
  nextId : nat
}.

Definition constructor : t :=
  {| users := JsMap.empty;
     usersBySentryId := JsMap.empty;
     usersByEmail := JsMap.empty;
     nextId := 1 |}.

Definition findUserBySentryId (s : t) (sentryId : string) : option User.t :=
  JsMap.get (usersBySentryId s) sentryId.

Definition findUserByEmail (s : t) (email : string) : option User.t :=
  JsMap.get (usersByEmail s) email.

Definition findUserById (s : t) (id : nat) : option User.t :=
  JsMap.get (users s) id.

(** [createUser(sentryUser, accessToken)]; [t1] and [t2] are the two
    readings of the clock, for [created_at] and [updated_at]. *)
Definition createUser (s : t) (sentryUser : SentryUser.t)
           (accessToken : option string) (t1 t2 : string) : User.t * t :=
  let user :=
    {| User.id := nextId s;
       User.sentry_id := SentryUser.id sentryUser;
       User.email := SentryUser.email sentryUser;
       User.name := SentryUser.name sentryUser;
       User.username := SentryUser.username sentryUser;
       User.avatar_url :=
         Avatar.or (Avatar.avatarUrl_of (SentryUser.avatar sentryUser))
                   (SentryUser.avatar sentryUser);
       User.access_token := accessToken;
       User.created_at := t1;
       User.updated_at := t2 |} in
  (user,
   {| users := JsMap.set (users s) (User.id user) user;
      usersBySentryId :=
        JsMap.set (usersBySentryId s) (User.sentry_id user) user;
      usersByEmail := JsMap.set (usersByEmail s) (User.email user) user;
      nextId := S (nextId s) |}).

(** [updateUser(sentryUser, accessToken)]; [t1] is the reading of the
    clock for [updated_at]. *)
Definition updateUser (s : t) (sentryUser : SentryUser.t)
           (accessToken : option string) (t1 : string)
  : Result (User.t * t) :=
  match JsMap.get (usersBySentryId s) (SentryUser.id sentryUser) with
  | None => Throw (mkError "User not found for update")
  | Some existingUser =>
    let updatedUser :=
      {| User.id := User.id existingUser;
         User.sentry_id := User.sentry_id existingUser;
         User.email := SentryUser.email sentryUser;
         User.name := SentryUser.name sentryUser;
         User.username := SentryUser.username sentryUser;
         User.avatar_url :=
           Avatar.or (Avatar.avatarUrl_of (SentryUser.avatar sentryUser))
                     (SentryUser.avatar sentryUser);
         User.access_token := accessToken;
         User.created_at := User.created_at existingUser;
         User.updated_at := t1 |} in
    let byEmail :=
      if negb (User.email existingUser =? User.email updatedUser)
      then JsMap.set (JsMap.delete (usersByEmail s) (User.email existingUser))
                     (User.email updatedUser) updatedUser
      else usersByEmail s in
    Ok (updatedUser,
        {| users := JsMap.set (users s) (User.id updatedUser) updatedUser;
           usersBySentryId :=
             JsMap.set (usersBySentryId s) (User.sentry_id updatedUser)
                       updatedUser;
           usersByEmail := byEmail;
           nextId := nextId s |})
  end.

Record Stats := mkStats {
  totalUsers : nat;
  stats_users : list StatsEntry.t
}.

Definition stats_entry (user : User.t) : StatsEntry.t :=
  {| StatsEntry.id := User.id user;
     StatsEntry.sentry_id := User.sentry_id user;
     StatsEntry.email := User.email user;
     StatsEntry.name := User.name user;
     StatsEntry.created_at := User.created_at user |}.

Definition getStats (s : t) : Stats :=
  {| totalUsers := JsMap.size (users s);
     stats_users := map stats_entry (JsMap.values (users s)) |}.

End SimpleUserStore.

(* ================================================================= *)
(** * Outbound HTTP: [fetch] against the provider *)

Module IO.

Record Request := mkRequest {
  url : string;
  method : string;
  headers : list (string * string);
  body : option string
}.

(** A response: status line, the body as [response.text()] gives it and
    the outcome of [response.json()]. *)
Record Response (A : Type) := mkResponse {
  status : nat;
  statusText : string;
  text : string;
  json : Result A
}.
Arguments mkResponse {A}.
Arguments status {A}.
Arguments statusText {A}.
Arguments text {A}.
Arguments json {A}.

(** [response.ok] *)
Definition ok {A} (r : Response A) : bool :=
  ((200 <=? status r) && (status r <=? 299))%nat.

Inductive FetchResult (A : Type) :=
| Rejects (e : JsError)
| Resolves (r : Response A).
Arguments Rejects {A} e.
Arguments Resolves {A} r.

(** The provider as seen from the server: what each request is answered
    with, at the token endpoint and at the user endpoints. *)
Record Net := mkNet {
  token_endpoint : Request -> FetchResult TokenData.t;
  user_endpoint : Request -> FetchResult UserData.t
}.

(** A computation that may issue requests and may throw: its outcome and
    the requests it sent, in order. *)
Definition M (A : Type) : Type := Net -> Result A * list Request.

Definition ret {A} (a : A) : M A := fun _ => (Ok a, []).

Definition throw {A} (e : JsError) : M A := fun _ => (Throw e, []).

Definition bind {A B} (m : M A) (f : A -> M B) : M B :=
  fun net =>
    match m net with
    | (Ok a, sent) =>
      let (r, sent') := f a net in (r, (sent ++ sent')%list)
    | (Throw e, sent) => (Throw e, sent)
    end.

(** [try { m } catch (e) { h e }] *)
Definition try_catch {A} (m : M A) (h : JsError -> M A) : M A :=
  fun net =>
    match m net with
    | (Ok a, sent) => (Ok a, sent)
    | (Throw e, sent) =>
      let (r, sent') := h e net in (r, (sent ++ sent')%list)
    end.

(** [await fetch(...)]: a rejected promise throws. *)
Definition fetch {A} (endpoint : Net -> Request -> FetchResult A)
           (req : Request) : M (Response A) :=
  fun net =>
    match endpoint net req with
    | Rejects e => (Throw e, [req])
    | Resolves r => (Ok r, [req])
    end.

(** [await response.json()] *)
Definition await_json {A} (r : Response A) : M A :=
  match json r with
  | Ok a => ret a
  | Throw e => throw e
  end.

Declare Scope io_scope.
Delimit Scope io_scope with io.
Notation "x <- c1 ;; c2" := (bind c1 (fun x => c2))
  (at level 100, c1 at next level, right associativity) : io_scope.

End IO.

(* ================================================================= *)
(** * [server/services/sentry-oauth.js]: class [SentryOAuthService] *)

(** [process.env] *)
Record Env := mkEnv {
  SENTRY_OAUTH_CLIENT_ID : option string;
  SENTRY_OAUTH_CLIENT_SECRET : option string;
  SENTRY_OAUTH_REDIRECT_URI : option string;
  SENTRY_BASE_URL : option string;
  FRONTEND_URL : option string
}.

Module SentryOAuthService.
Import IO.
Local Open Scope io_scope.

Record Config := mkConfig {
  clientId : option string;
  clientSecret : option string;
  redirectUri : option string;
  baseUrl : string
}.

Definition constructor (env : Env) : Result Config :=
  let config :=
    {| clientId := SENTRY_OAUTH_CLIENT_ID env;
       clientSecret := SENTRY_OAUTH_CLIENT_SECRET env;
       redirectUri := SENTRY_OAUTH_REDIRECT_URI env;
       baseUrl := Js.to_string
                    (Js.or (SENTRY_BASE_URL env) (Some "https://sentry.io")) |} in
  if negb (Js.truthy (clientId config)) || negb (Js.truthy (clientSecret config))
  then Throw (mkError
    "❌ Sentry OAuth credentials not configured! Check your .env file.")
  else Ok config.

Definition scope : string :=
  "org:read project:read team:read member:read event:read".

Definition getAuthorizationUrl (config : Config) (state : option string)
  : string :=
  let params : Url.Params :=
    [ ("response_type", "code");
      ("client_id", Js.to_string (clientId config));
      ("redirect_uri", Js.to_string (redirectUri config));
      ("scope", scope) ] in
  let params :=
    if Js.truthy state
    then Url.params_append params "state" (Js.to_string state)
    else params in
  baseUrl config ++ "/oauth/authorize/?" ++ Url.params_toString params.

Definition token_request (config : Config) (code : string) : Request :=
  let tokenUrl := baseUrl config ++ "/oauth/token/" in
  let params : Url.Params :=
    [ ("grant_type", "authorization_code");
      ("client_id", Js.to_string (clientId config));
      ("client_secret", Js.to_string (clientSecret config));
      ("code", code);
      ("redirect_uri", Js.to_string (redirectUri config)) ] in
  {| url := tokenUrl;
     method := "POST";
     headers := [ ("Content-Type", "application/x-www-form-urlencoded");
                  ("Accept", "application/json") ];
     body := Some (Url.params_toString params) |}.

Definition token_failure_message (status : nat) (errorText : string)
  : string :=
  "❌ Sentry token exchange failed: "
    ++ Js.number_to_string status ++ " " ++ errorText.

(** Everything the code throws is an [Error], so the handler of the outer
    [try] rethrows what it caught. *)
Definition exchangeCodeForToken (config : Config) (code : string)
  : M TokenData.t :=
  try_catch
    (response <- fetch token_endpoint (token_request config code) ;;
     if negb (ok response) then
       let errorText := text response in
       throw (mkError (token_failure_message (status response) errorText))
     else
       tokenData <- await_json response ;;
       ret tokenData)
    (fun error => throw error).

Definition possibleEndpoints (config : Config) : list string :=
  [ baseUrl config ++ "/oauth/userinfo";
    baseUrl config ++ "/userinfo";
    baseUrl config ++ "/oauth/userinfo/";
    baseUrl config ++ "/userinfo/";
    baseUrl config ++ "/api/0/user/";
    baseUrl config ++ "/api/0/users/me/" ].

Definition user_request (accessToken : option string) (userUrl : string)
  : Request :=
  {| url := userUrl;
     method := "GET";
     headers := [ ("Authorization", "Bearer " ++ Js.to_string accessToken);
                  ("Accept", "application/json") ];
     body := None |}.

(** [d.name || d.username || d.email.split('@')[0]] *)
Definition default_name (d : UserData.t) : string :=
  match Js.or (UserData.name d) (UserData.username d) with
  | Some s => if s =? "" then Js.before_char "@" (Js.str (UserData.email d))
              else s
  | None => Js.before_char "@" (Js.str (UserData.email d))
  end.

(** The object literal returned by [getUserInfo] for a payload [userData]
    that passed the check on [id] and [email]. *)
Definition normalize (userData : UserData.t) : SentryUser.t :=
  {| SentryUser.id := Js.str (UserData.id userData);
     SentryUser.email := Js.str (UserData.email userData);
     SentryUser.name := default_name userData;
     SentryUser.username := UserData.username userData;
     SentryUser.avatar :=
       Avatar.or (Avatar.avatarUrl_of (UserData.avatar userData))
         (Avatar.or (Avatar.url_of (UserData.avatar userData))
                    (UserData.avatar userData)) |}.

(** How one turn of the loop over the endpoints ends. *)
Inductive Attempt :=
| Return (user : SentryUser.t)
| Continue (lastError : JsError).

Definition try_endpoint (accessToken : option string) (userUrl : string)
  : M Attempt :=
  try_catch
    (response <- fetch user_endpoint (user_request accessToken userUrl) ;;
     if ok response then
       userData <- await_json response ;;
       if negb (Js.truthy (UserData.id userData))
          || negb (Js.truthy (UserData.email userData))
       then ret (Continue (mkError ("Invalid user data from " ++ userUrl)))
       else ret (Return (normalize userData))
     else
       let errorText := text response in
       ret (Continue (mkError (Js.number_to_string (status response) ++ ": "
                                 ++ Js.substring_to 200 errorText))))
    (fun endpointError => ret (Continue endpointError)).

(** After the loop: [accessToken.length] is read while the report is
    built, which throws a [TypeError] on an undefined token. *)
Definition all_endpoints_failed (accessToken : option string)
           (lastError : option JsError) : M SentryUser.t :=
  let finalError :=
    match lastError with
    | Some e => e
    | None => mkError "All Sentry user endpoints failed"
    end in
  match accessToken with
  | Some _ => throw finalError
  | None =>
    throw (mkError "Cannot read properties of undefined (reading 'length')")
  end.

Fixpoint getUserInfo_loop (accessToken : option string)
         (endpoints : list string) (lastError : option JsError)
  : M SentryUser.t :=
  match endpoints with
  | [] => all_endpoints_failed accessToken lastError
  | userUrl :: rest =>
    r <- try_endpoint accessToken userUrl ;;
    match r with
    | Return user => ret user
    | Continue e => getUserInfo_loop accessToken rest (Some e)
    end
  end.

Definition getUserInfo (config : Config) (accessToken : option string)
  : M SentryUser.t :=
  getUserInfo_loop accessToken (possibleEndpoints config) None.

(** [a || b] on objects: an object is truthy whenever it is present. *)
Definition or_object {A} (a b : option A) : option A :=
  match a with
  | Some _ => a
  | None => b
  end.

Definition embedded_user (tokenResponse : TokenData.t) : option UserData.t :=
  or_object (TokenData.user tokenResponse)
    (or_object (TokenData.user_info tokenResponse)
               (TokenData.profile tokenResponse)).

(** The [user] object built from the profile found in the token response. *)
Definition embedded_profile (userInfo : UserData.t) : SentryUser.t :=
  {| SentryUser.id := Js.str (UserData.id userInfo);
     SentryUser.email := Js.str (UserData.email userInfo);
     SentryUser.name := default_name userInfo;
     SentryUser.username := UserData.username userInfo;
     SentryUser.avatar := UserData.avatar userInfo |}.

Definition fetch_profile (config : Config) (tokenResponse : TokenData.t)
  : M (SentryUser.t * option string) :=
  user <- getUserInfo config (TokenData.access_token tokenResponse) ;;
  ret (user, TokenData.access_token tokenResponse).

Definition completeOAuthFlow (config : Config) (code : string)
  : M (SentryUser.t * option string) :=
  tokenResponse <- exchangeCodeForToken config code ;;
  match embedded_user tokenResponse with
  | Some userInfo =>
    if Js.truthy (UserData.id userInfo) && Js.truthy (UserData.email userInfo)
    then ret (embedded_profile userInfo, TokenData.access_token tokenResponse)
    else fetch_profile config tokenResponse
  | None => fetch_profile config tokenResponse
  end.

(** The validity predicate on the answer of a profile endpoint, in the
    words of the specification: the response is HTTP-successful and its
    payload has a non-empty [id] and a non-empty [email]. *)
Definition usable_profile (answer : FetchResult UserData.t)
  : option UserData.t :=
  match answer with
  | Rejects _ => None
  | Resolves r =>
    if ok r then
      match json r with
      | Ok userData =>
        if Js.truthy (UserData.id userData)
           && Js.truthy (UserData.email userData)
        then Some userData else None
      | Throw _ => None
      end
    else None
  end.

(** The profile the fast path of [completeOAuthFlow] uses, if any: the
    first of [user], [user_info], [profile] that is present, when its [id]
    and [email] are non-empty. *)
Definition usable_embedded (tokenResponse : TokenData.t)
  : option UserData.t :=
  match embedded_user tokenResponse with
  | Some userInfo =>
    if Js.truthy (UserData.id userInfo) && Js.truthy (UserData.email userInfo)
    then Some userInfo else None
  | None => None
  end.

(** The reading of the specification: some property among [user],
    [user_info], [profile] holds a payload with non-empty [id] and
    [email]. *)
Definition embeds_usable_profile (tokenResponse : TokenData.t) : Prop :=
  exists userInfo,
    (TokenData.user tokenResponse = Some userInfo
     \/ TokenData.user_info tokenResponse = Some userInfo
     \/ TokenData.profile tokenResponse = Some userInfo)
    /\ Js.truthy (UserData.id userInfo) = true
    /\ Js.truthy (UserData.email userInfo) = true.

(** A base URL with neither a query nor a fragment of its own. *)
Definition plain_base (config : Config) : bool :=
  Js.str_all (fun c => negb (Url.mem_char c "?#")) (baseUrl config).

End SentryOAuthService.

(* ================================================================= *)
(** * [server/index.js]: the route handlers *)

(** The user object sent to the browser: [const { access_token, ...safeUser }
    = user]. *)
Module SafeUser.
Record t := mk {
  id : nat;
  sentry_id : string;
  email : string;
  name : string;
  username : option string;
  avatar_url : option Avatar.t;
  created_at : string;
  updated_at : string
}.
End SafeUser.

Module Server.
Import IO.

(** [req.session]: the properties the handlers read and write. *)
Record Session := mkSession {
  oauthState : option string;
  userId : option nat;
  sentryId : option string
}.

Definition new_session : Session :=
  {| oauthState := None; userId := None; sentryId := None |}.

(** [req.query] of the callback. *)
Record Query := mkQuery {
  code : option string;
  state : option string
}.

Inductive Body :=
| ErrorBody (error : string)
| UserBody (user : SafeUser.t)
| AuthUrlBody (authUrl : string)
| MessageBody (message : string)
| StatsBody (message : string) (stats : SimpleUserStore.Stats).

Inductive HttpResponse :=
| Json (status : nat) (body : Body)
| Redirect (location : string).

(** [a === b] on string-or-undefined values. *)
Definition strict_eq (a b : option string) : bool :=
  match a, b with
  | Some x, Some y => x =? y
  | None, None => true
  | _, _ => false
  end.

(** The check the callback makes on the [state] of the query: present
    and equal to the pending one. *)
Definition state_accepted (sess : Session) (query : Query) : bool :=
  Js.truthy (state query) && strict_eq (state query) (oauthState sess).

(** The guard of [requireAuth]: [req.session.userId] is truthy. *)
Definition requireAuth (sess : Session) : bool :=
  match userId sess with
  | Some n => negb (n =? 0)%nat
  | None => false
  end.

Definition safeUser (user : User.t) : SafeUser.t :=
  {| SafeUser.id := User.id user;
     SafeUser.sentry_id := User.sentry_id user;
     SafeUser.email := User.email user;
     SafeUser.name := User.name user;
     SafeUser.username := User.username user;
     SafeUser.avatar_url := User.avatar_url user;
     SafeUser.created_at := User.created_at user;
     SafeUser.updated_at := User.updated_at user |}.

(** GET /api/auth/me.  The session in the result is [None] once
    [req.session.destroy()] ran. *)
Definition api_auth_me (store : SimpleUserStore.t) (sess : Session)
  : HttpResponse * option Session :=
  if requireAuth sess then
    match userId sess with
    | Some id =>
      match SimpleUserStore.findUserById store id with
      | None => (Json 401 (ErrorBody "User not found"), None)
      | Some user => (Json 200 (UserBody (safeUser user)), Some sess)
      end
    | None => (Json 401 (ErrorBody "Authentication required"), Some sess)
    end
  else (Json 401 (ErrorBody "Authentication required"), Some sess).

(** GET /api/auth/login; [uuid] is the value of [uuidv4()]. *)
Definition api_auth_login (config : SentryOAuthService.Config)
           (uuid : string) (sess : Session) : HttpResponse * Session :=
  let state := uuid in
  let sess' := {| oauthState := Some state;
                  userId := userId sess;
                  sentryId := sentryId sess |} in
  let authUrl := SentryOAuthService.getAuthorizationUrl config (Some state) in
  (Json 200 (AuthUrlBody authUrl), sess').

(** POST /api/auth/logout; [err] is what [destroy] passes to its
    callback. *)
Definition api_auth_logout (err : option JsError) (sess : Session)
  : HttpResponse * option Session :=
  match err with
  | Some _ => (Json 500 (ErrorBody "Failed to logout"), Some sess)
  | None => (Json 200 (MessageBody "Logged out successfully"), None)
  end.

(** GET /api/demo/stats: no [requireAuth], no session. *)
Definition api_demo_stats (store : SimpleUserStore.t) : HttpResponse :=
  Json 200 (StatsBody "Sentry OAuth Demo - User Storage Stats"
                      (SimpleUserStore.getStats store)).

(** Step 4 of the callback: update the user found under the provider id,
    or create one. *)
Definition upsert (store : SimpleUserStore.t) (sentryUser : SentryUser.t)
           (accessToken : option string) (t1 t2 : string)
  : Result (User.t * SimpleUserStore.t) :=
  match SimpleUserStore.findUserBySentryId store (SentryUser.id sentryUser) with
  | Some _ => SimpleUserStore.updateUser store sentryUser accessToken t1
  | None => Ok (SimpleUserStore.createUser store sentryUser accessToken t1 t2)
  end.

Definition frontendUrl (env : Env) : string :=
  Js.to_string (Js.or (FRONTEND_URL env) (Some "http://localhost:5173")).

(** What one run of a handler leaves behind. *)
Record Outcome := mkOutcome {
  response : HttpResponse;
  session : Session;
  store : SimpleUserStore.t;
  sent : list Request
}.

Definition error_redirect (env : Env) (error : JsError) : HttpResponse :=
  Redirect (frontendUrl env ++ "/auth/error?message="
              ++ Url.encodeURIComponent (message error)).

(** GET /api/auth/callback; [t1] and [t2] are the readings of the clock
    the directory takes. *)
Definition api_auth_callback (env : Env) (config : SentryOAuthService.Config)
           (net : Net) (t1 t2 : string)
           (store0 : SimpleUserStore.t) (sess : Session) (query : Query)
  : Outcome :=
  if negb (Js.truthy (state query))
     || negb (strict_eq (state query) (oauthState sess))
  then {| response := Json 400 (ErrorBody "Invalid state parameter");
          session := sess; store := store0; sent := [] |}
  else
    let sess1 := {| oauthState := None;
                    userId := userId sess;
                    sentryId := sentryId sess |} in
    if negb (Js.truthy (code query))
    then {| response := Json 400 (ErrorBody "Authorization code not provided");
            session := sess1; store := store0; sent := [] |}
    else
      match SentryOAuthService.completeOAuthFlow config (Js.str (code query)) net with
      | (Throw error, reqs) =>
        {| response := error_redirect env error;
           session := sess1; store := store0; sent := reqs |}
      | (Ok (sentryUser, accessToken), reqs) =>
        match upsert store0 sentryUser accessToken t1 t2 with
        | Throw error =>
          {| response := error_redirect env error;
             session := sess1; store := store0; sent := reqs |}
        | Ok (user, store1) =>
          {| response := Redirect (frontendUrl env ++ "/auth/success");
             session := {| oauthState := None;
                           userId := Some (User.id user);
                           sentryId := Some (SentryUser.id sentryUser) |};
             store := store1; sent := reqs |}
        end
      end.

End Server.

(* ================================================================= *)
(** * States of the directory and of a session *)

Module Directory.
Import SimpleUserStore.

(** The states the directory goes through: it starts empty and is written
    by the callback's create-or-update step only. *)
Inductive reachable : SimpleUserStore.t -> Prop :=
| reach_constructor : reachable SimpleUserStore.constructor
| reach_upsert s sentryUser accessToken t1 t2 user s' :
    reachable s ->
    Server.upsert s sentryUser accessToken t1 t2 = Ok (user, s') ->
    reachable s'.

(** Local ids: each record sits under its own id, ids are at least 1 and
    below [nextId], and no id is used twice. *)
Definition ids_ok (s : SimpleUserStore.t) : Prop :=
  1 <= nextId s
  /\ NoDup (JsMap.keys (users s))
  /\ forall k u, In (k, u) (users s) ->
                 User.id u = k /\ 1 <= k /\ k < nextId s.

(** The index by provider id holds exactly the stored users, each under
    its [sentry_id]. *)
Definition sentry_index_ok (s : SimpleUserStore.t) : Prop :=
  forall sid u,
    JsMap.get (usersBySentryId s) sid = Some u
    <-> (JsMap.get (users s) (User.id u) = Some u /\ User.sentry_id u = sid).

(** Every entry of the index by email has the email it is filed under. *)
Definition email_index_ok (s : SimpleUserStore.t) : Prop :=
  forall e u, In (e, u) (usersByEmail s) -> User.email u = e.

Definition store_ok (s : SimpleUserStore.t) : Prop :=
  ids_ok s /\ sentry_index_ok s /\ email_index_ok s.

(** No two stored users have the same provider id. *)
Definition one_user_per_provider (s : SimpleUserStore.t) : Prop :=
  forall k1 u1 k2 u2,
    In (k1, u1) (users s) -> In (k2, u2) (users s) ->
    User.sentry_id u1 = User.sentry_id u2 -> k1 = k2 /\ u1 = u2.

(** [user] with another access token. *)
Definition with_token (user : User.t) (token : option string) : User.t :=
  {| User.id := User.id user;
     User.sentry_id := User.sentry_id user;
     User.email := User.email user;
     User.name := User.name user;
     User.username := User.username user;
     User.avatar_url := User.avatar_url user;
     User.access_token := token;
     User.created_at := User.created_at user;
     User.updated_at := User.updated_at user |}.

(** [user] with another [updated_at]. *)
Definition touched (user : User.t) (now : string) : User.t :=
  {| User.id := User.id user;
     User.sentry_id := User.sentry_id user;
     User.email := User.email user;
     User.name := User.name user;
     User.username := User.username user;
     User.avatar_url := User.avatar_url user;
     User.access_token := User.access_token user;
     User.created_at := User.created_at user;
     User.updated_at := now |}.

(** Two directories that hold the same users under the same ids, up to
    the access tokens. *)
Definition same_up_to_tokens (s1 s2 : SimpleUserStore.t) : Prop :=
  Forall2 (fun e1 e2 =>
             fst e1 = fst e2
             /\ with_token (snd e1) None = with_token (snd e2) None)
          (users s1) (users s2).

(** The local id bound to a session, if any, is at least 1. *)
Definition session_ok (sess : Server.Session) : Prop :=
  forall n, Server.userId sess = Some n -> 1 <= n.

End Directory.

(* ================================================================= *)
(** * Sample inputs *)

Module Samples.
Import IO.

Definition env : Env :=
  {| SENTRY_OAUTH_CLIENT_ID := Some "client-1";
     SENTRY_OAUTH_CLIENT_SECRET := Some "secret-1";
     SENTRY_OAUTH_REDIRECT_URI := Some "http://localhost:3001/api/auth/callback";
     SENTRY_BASE_URL := None;
     FRONTEND_URL := None |}.

Definition config : SentryOAuthService.Config :=
  {| SentryOAuthService.clientId := Some "client-1";
     SentryOAuthService.clientSecret := Some "secret-1";
     SentryOAuthService.redirectUri :=
       Some "http://localhost:3001/api/auth/callback";
     SentryOAuthService.baseUrl := "https://sentry.io" |}.

Definition no_user : UserData.t :=
  {| UserData.id := None; UserData.email := None; UserData.name := None;
     UserData.username := None; UserData.avatar := None |}.

Definition no_token : TokenData.t :=
  {| TokenData.access_token := None; TokenData.token_type := None;
     TokenData.scope := None; TokenData.refresh_token := None;
     TokenData.user := None; TokenData.user_info := None;
     TokenData.profile := None |}.

(** A provider that cannot be reached. *)
Definition offline : Net :=
  {| token_endpoint := fun _ => Rejects (mkError "fetch failed");
     user_endpoint := fun _ => Rejects (mkError "fetch failed") |}.

(** A provider whose token endpoint refuses every code with status 400
    and the given response body. *)
Definition refusing (errorText : string) : Net :=
  {| token_endpoint := fun _ =>
       Resolves {| status := 400; statusText := "Bad Request";
                   text := errorText;
                   json := Throw (mkError "Unexpected token") |};
     user_endpoint := fun _ => Rejects (mkError "fetch failed") |}.

(** A session waiting for the callback of a login started with state
    ["S"]. *)
Definition awaiting : Server.Session :=
  {| Server.oauthState := Some "S";
     Server.userId := None;
     Server.sentryId := None |}.

(** The payload [{id: "42", email: "a@b.com"}]. *)
Definition payload42 : UserData.t :=
  {| UserData.id := Some "42"; UserData.email := Some "a@b.com";
     UserData.name := None; UserData.username := None;
     UserData.avatar := None |}.

Definition answer (status : nat) (statusText text : string)
           (json : Result UserData.t) : FetchResult UserData.t :=
  Resolves {| status := status; statusText := statusText;
              text := text; json := json |}.

(** A token response with an empty [user] object and the payload above
    under [profile]. *)
Definition token_with_profile : TokenData.t :=
  {| TokenData.access_token := Some "T"; TokenData.token_type := Some "bearer";
     TokenData.scope := None; TokenData.refresh_token := None;
     TokenData.user := Some no_user; TokenData.user_info := None;
     TokenData.profile := Some payload42 |}.

(** A token response with the payload above under [user_info]. *)
Definition token_with_user_info : TokenData.t :=
  {| TokenData.access_token := Some "T"; TokenData.token_type := Some "bearer";
     TokenData.scope := None; TokenData.refresh_token := None;
     TokenData.user := None; TokenData.user_info := Some payload42;
     TokenData.profile := None |}.

(** A provider that answers the token request with [tokenData], 404 and
    401 at the first two profile endpoints and the payload above at every
    other one. *)
Definition provider (tokenData : TokenData.t) : Net :=
  {| token_endpoint := fun _ =>
       Resolves {| status := 200; statusText := "OK"; text := "";
                   json := Ok tokenData |};
     user_endpoint := fun req =>
       if url req =? "https://sentry.io/oauth/userinfo"
       then answer 404 "Not Found" "not found" (Throw (mkError "Unexpected token"))
       else if url req =? "https://sentry.io/userinfo"
       then answer 401 "Unauthorized" "denied" (Throw (mkError "Unexpected token"))
       else answer 200 "OK" "" (Ok payload42) |}.

(** The profile of the end-to-end scenario. *)
Definition profile : SentryUser.t :=
  {| SentryUser.id := "u1"; SentryUser.email := "u@x.com";
     SentryUser.name := "U"; SentryUser.username := None;
     SentryUser.avatar := None |}.

(** Another provider identity with the same email. *)
Definition homonym : SentryUser.t :=
  {| SentryUser.id := "u2"; SentryUser.email := "u@x.com";
     SentryUser.name := "V"; SentryUser.username := None;
     SentryUser.avatar := None |}.

(** The directory after the first login of [profile]. *)
Definition one_user : SimpleUserStore.t :=
  snd (SimpleUserStore.createUser SimpleUserStore.constructor profile
         (Some "T") "t1" "t2").

(** The same directory after the provider issued another token. *)
Definition one_user_new_token : SimpleUserStore.t :=
  snd (SimpleUserStore.createUser SimpleUserStore.constructor profile
         (Some "T2") "t1" "t2").

(** A session bound to local id 1, and one bound to an id that no record
    has. *)
Definition logged_in : Server.Session :=
  {| Server.oauthState := None;
     Server.userId := Some 1;
     Server.sentryId := Some "u1" |}.

Definition stale : Server.Session :=
  {| Server.oauthState := None;
     Server.userId := Some 7;
     Server.sentryId := Some "u7" |}.

(** The callback the provider sends for that login, and a forged one. *)
Definition matching : Server.Query :=
  {| Server.code := Some "C"; Server.state := Some "S" |}.

Definition forged : Server.Query :=
  {| Server.code := Some "C"; Server.state := Some "X" |}.

End Samples.

(* ================================================================= *)
(** * More of the provider client and of the directory *)

Module ProfileEndpoints.
Import IO.

(** The error one turn of the loop of [getUserInfo] records for an answer
    it cannot use: the rejection of [fetch], the error of
    [response.json()], the complaint about a payload without [id] or
    [email], or the status with the first 200 characters of the body. *)
Definition endpoint_error (userUrl : string)
           (answer : FetchResult UserData.t) : JsError :=
  match answer with
  | Rejects e => e
  | Resolves r =>
    if ok r then
      match json r with
      | Throw e => e
      | Ok _ => mkError ("Invalid user data from " ++ userUrl)
      end
    else mkError (Js.number_to_string (status r) ++ ": "
                    ++ Js.substring_to 200 (text r))
  end.

End ProfileEndpoints.

Module DirectoryIndexes.
Import SimpleUserStore.

(** The index by email has one entry per email. *)
Definition email_keys_ok (s : SimpleUserStore.t) : Prop :=
  NoDup (JsMap.keys (usersByEmail s)).

End DirectoryIndexes.

(* ================================================================= *)
(** * JSON values *)

Module Json.

#[local] Unset Elimination Schemes.

(** A parsed JSON value; numbers are integers here, given by sign and
    magnitude. *)
Inductive t :=
| Null
| Bool (b : bool)
| Num (negative : bool) (magnitude : nat)
| Str (s : string)
| Arr (items : list t)
| Obj (fields : list (string * t)).

#[local] Set Elimination Schemes.

(** Truthiness of a value that may be [undefined]. *)
Definition truthy (v : option t) : bool :=
  match v with
  | None => false
  | Some Null => false
  | Some (Bool b) => b
  | Some (Num _ n) => negb (n =? 0)%nat
  | Some (Str s) => negb (s =? "")
  | Some (Arr _) => true
  | Some (Obj _) => true
  end.

(** [Array.isArray(v)] *)
Definition isArray (v : option t) : bool :=
  match v with
  | Some (Arr _) => true
  | _ => false
  end.

(** Property lookup in the fields of a parsed object: of two fields with
    one name the parser keeps the later one. *)
Fixpoint field (fields : list (string * t)) (name : string) : option t :=
  match fields with
  | [] => None
  | (n, v) :: rest =>
    match field rest name with
    | Some v' => Some v'
    | None => if n =? name then Some v else None
    end
  end.

End Json.

(* ================================================================= *)
(** * [server/services/sentry-api.js]: class [SentryAPIService] *)

Module SentryAPIService.
Import IO.

(** The Sentry API as seen from the server. *)
Definition ApiNet : Type := Request -> FetchResult Json.t.

Record t := mk { baseUrl : string }.

Definition constructor (env : Env) : t :=
  {| baseUrl := Js.to_string
                  (Js.or (SENTRY_BASE_URL env) (Some "https://sentry.io")) |}.

Definition api_request (svc : t) (endpoint : string)
           (accessToken : option string) : Request :=
  {| url := baseUrl svc ++ "/api/0" ++ endpoint;
     method := "GET";
     headers := [ ("Authorization", "Bearer " ++ Js.to_string accessToken);
                  ("Accept", "application/json") ];
     body := None |}.

(** The message of the error thrown for a response that is not [ok]. *)
Definition api_failure_message (endpoint : string) (r : Response Json.t)
  : string :=
  if (status r =? 401)%nat
  then "Authentication failed - check access token and scopes"
  else if (status r =? 403)%nat
  then "Permission denied - insufficient scopes for " ++ endpoint
  else if (status r =? 404)%nat
  then "Resource not found - check organization slug and endpoint"
  else "Sentry API error: " ++ Js.number_to_string (status r) ++ " "
         ++ statusText r ++ " - " ++ text r.

(** [makeRequest(endpoint, accessToken)]: the outcome and the requests
    sent.  The handler of the [try] logs and rethrows. *)
Definition makeRequest (svc : t) (net : ApiNet) (endpoint : string)
           (accessToken : option string) : Result Json.t * list Request :=
  let req := api_request svc endpoint accessToken in
  match net req with
  | Rejects e => (Throw e, [req])
  | Resolves response =>
    if negb (ok response)
    then (Throw (mkError (api_failure_message endpoint response)), [req])
    else (json response, [req])
  end.

Definition getOrganizations (svc : t) (net : ApiNet)
           (accessToken : option string) :=
  makeRequest svc net "/organizations/" accessToken.

Definition getOrganization (svc : t) (net : ApiNet) (orgSlug : string)
           (accessToken : option string) :=
  makeRequest svc net ("/organizations/" ++ orgSlug ++ "/") accessToken.

Definition getProjects (svc : t) (net : ApiNet) (orgSlug : string)
           (accessToken : option string) :=
  makeRequest svc net ("/organizations/" ++ orgSlug ++ "/projects/") accessToken.

Definition getMembers (svc : t) (net : ApiNet) (orgSlug : string)
           (accessToken : option string) :=
  makeRequest svc net ("/organizations/" ++ orgSlug ++ "/members/") accessToken.

Definition getAlertRules (svc : t) (net : ApiNet) (orgSlug : string)
           (accessToken : option string) :=
  makeRequest svc net ("/organizations/" ++ orgSlug ++ "/alert-rules/")
              accessToken.

(** [n || d] on a number that may be undefined: 0 is falsy. *)
Definition number_or (n : option nat) (d : nat) : nat :=
  match n with
  | Some (S k) => S k
  | _ => d
  end.

(** [params.set(name, value)]: the first pair called [name] gets the
    value and the later ones are removed; a new pair is appended when
    there is none. *)
Fixpoint params_set (ps : Url.Params) (name value : string) : Url.Params :=
  match ps with
  | [] => [(name, value)]
  | (n, v) :: rest =>
    if n =? name
    then (n, value) :: filter (fun p => negb (fst p =? name)) rest
    else (n, v) :: params_set rest name value
  end.

(** The options of [getIssues]; [limit] is a non-negative integer. *)
Record IssueOptions := mkIssueOptions {
  statsPeriod : option string;
  limit : option nat;
  sort : option string;
  query : option string;
  projectId : option string
}.

Definition issue_params (options : IssueOptions) : Url.Params :=
  let params : Url.Params :=
    [ ("statsPeriod", Js.to_string (Js.or (statsPeriod options) (Some "14d")));
      ("limit", Js.number_to_string (Nat.min (number_or (limit options) 100) 100));
      ("sort", Js.to_string (Js.or (sort options) (Some "date")));
      ("query", match query options with Some q => q | None => "" end);
      ("project", "-1") ] in
  if Js.truthy (projectId options)
  then params_set params "project" (Js.str (projectId options))
  else params.

Definition issues_endpoint (orgSlug : string) (options : IssueOptions)
  : string :=
  "/organizations/" ++ orgSlug ++ "/issues/?"
    ++ Url.params_toString (issue_params options).

Definition getIssues (svc : t) (net : ApiNet) (orgSlug : string)
           (accessToken : option string) (options : IssueOptions) :=
  makeRequest svc net (issues_endpoint orgSlug options) accessToken.

(** The options of [getReplays]. *)
Record ReplayOptions := mkReplayOptions {
  replay_statsPeriod : option string;
  replay_limit : option nat;
  replay_sort : option string;
  projectSlug : option string
}.

Definition replay_params (options : ReplayOptions) : Url.Params :=
  let params : Url.Params :=
    [ ("statsPeriod",
       Js.to_string (Js.or (replay_statsPeriod options) (Some "14d")));
      ("per_page",
       Js.number_to_string (Nat.min (number_or (replay_limit options) 100) 100));
      ("sort", Js.to_string (Js.or (replay_sort options) (Some "-started_at"))) ] in
  if Js.truthy (projectSlug options)
  then params_set params "projectSlug" (Js.str (projectSlug options))
  else params.

Definition replays_endpoint (orgSlug : string) (options : ReplayOptions)
  : string :=
  "/organizations/" ++ orgSlug ++ "/replays/?"
    ++ Url.params_toString (replay_params options).

(** What [getReplays] returns for the data [makeRequest] gave it. *)
Definition replays_of (response : Json.t) : Json.t :=
  match response with
  | Json.Arr _ => response
  | Json.Obj fields =>
    if Json.truthy (Json.field fields "data")
       && Json.isArray (Json.field fields "data")
    then match Json.field fields "data" with
         | Some data => data
         | None => Json.Arr []
         end
    else if Json.truthy (Json.field fields "results")
            && Json.isArray (Json.field fields "results")
    then match Json.field fields "results" with
         | Some results => results
         | None => Json.Arr []
         end
    else Json.Arr []
  | _ => if Json.truthy (Some response) then response else Json.Arr []
  end.

Definition getReplays (svc : t) (net : ApiNet) (orgSlug : string)
           (accessToken : option string) (options : ReplayOptions)
  : Result Json.t * list Request :=
  match makeRequest svc net (replays_endpoint orgSlug options) accessToken with
  | (Ok response, reqs) => (Ok (replays_of response), reqs)
  | (Throw e, reqs) => (Throw e, reqs)
  end.

(** An issue, as far as [calculateIssuesByLevel] reads it. *)
Record Issue := mkIssue { level : option string }.

Record Levels := mkLevels {
  error : nat;
  warning : nat;
  info : nat;
  debug : nat;
  fatal : nat
}.

(** One turn of the [forEach] of [calculateIssuesByLevel]. *)
Definition count_level (levels : Levels) (issue : Issue) : Levels :=
  let level := Js.to_string (Js.or (level issue) (Some "error")) in
  if level =? "error" then
    mkLevels (S (error levels)) (warning levels) (info levels)
             (debug levels) (fatal levels)
  else if level =? "warning" then
    mkLevels (error levels) (S (warning levels)) (info levels)
             (debug levels) (fatal levels)
  else if level =? "info" then
    mkLevels (error levels) (warning levels) (S (info levels))
             (debug levels) (fatal levels)
  else if level =? "debug" then
    mkLevels (error levels) (warning levels) (info levels)
             (S (debug levels)) (fatal levels)
  else if level =? "fatal" then
    mkLevels (error levels) (warning levels) (info levels)
             (debug levels) (S (fatal levels))
  else
    mkLevels (S (error levels)) (warning levels) (info levels)
             (debug levels) (fatal levels).

Definition calculateIssuesByLevel (issues : list Issue) : Levels :=
  fold_left count_level issues (mkLevels 0 0 0 0 0).

(** The number of issues whose level, read as the code reads it, is
    [name]. *)
Definition issues_at (name : string) (issues : list Issue) : nat :=
  length (filter (fun issue =>
                    Js.to_string (Js.or (level issue) (Some "error")) =? name)
                 issues).

End SentryAPIService.

(* ================================================================= *)
(** * [server/index.js]: the dashboard routes *)

Module Dashboard.
Import IO Server.

Inductive ApiBody :=
| ApiError (error : string)
| Organizations (organizations : Json.t).

Record ApiResponse := mkApiResponse {
  api_status : nat;
  api_body : ApiBody
}.

(** The part the dashboard routes share: [requireAuth], the lookup of the
    user and the check of its token; the result is the token to call
    Sentry with, or the answer to send. *)
Definition stored_token (store : SimpleUserStore.t) (sess : Session)
  : ApiResponse + option string :=
  if requireAuth sess then
    match userId sess with
    | Some id =>
      match SimpleUserStore.findUserById store id with
      | None => inl (mkApiResponse 401 (ApiError "No Sentry access token found"))
      | Some user =>
        if negb (Js.truthy (User.access_token user))
        then inl (mkApiResponse 401 (ApiError "No Sentry access token found"))
        else inr (User.access_token user)
      end
    | None => inl (mkApiResponse 401 (ApiError "Authentication required"))
    end
  else inl (mkApiResponse 401 (ApiError "Authentication required")).

(** GET /api/dashboard/organizations *)
Definition api_dashboard_organizations (svc : SentryAPIService.t)
           (net : SentryAPIService.ApiNet)
           (store : SimpleUserStore.t) (sess : Session)
  : ApiResponse * list Request :=
  match stored_token store sess with
  | inl answer => (answer, [])
  | inr accessToken =>
    match SentryAPIService.getOrganizations svc net accessToken with
    | (Ok organizations, reqs) =>
      (mkApiResponse 200 (Organizations organizations), reqs)
    | (Throw _, reqs) =>
      (mkApiResponse 500 (ApiError "Failed to fetch organizations"), reqs)
    end
  end.

End Dashboard.

(* ================================================================= *)
(** * More sample inputs *)

Module MoreSamples.
Import IO.

(** A profile with another email for the provider identity of
    [Samples.profile]. *)
Definition moved : SentryUser.t :=
  {| SentryUser.id := "u1"; SentryUser.email := "u@y.org";
     SentryUser.name := "U"; SentryUser.username := None;
     SentryUser.avatar := None |}.

(** The directory after [Samples.profile] logged in twice, the second time
    with token ["T2"]. *)
Definition logged_in_twice : SimpleUserStore.t :=
  match Server.upsert Samples.one_user Samples.profile (Some "T2") "t3" "t4" with
  | Ok (_, s) => s
  | Throw _ => Samples.one_user
  end.


Definition api : SentryAPIService.t := SentryAPIService.constructor Samples.env.

(** A Sentry API that answers every request with the given status and
    body, and with the given data where the status is a success. *)
Definition api_answering (status : nat) (errorText : string) (data : Json.t)
  : SentryAPIService.ApiNet :=
  fun _ => Resolves {| status := status; statusText := "Status";
                       text := errorText; json := Ok data |}.

End MoreSamples.

(* ================================================================= *)
(** * The callback handler: CSRF state and error answers *)

Section Callback.
Import IO Server.

Variables (env : Env) (config : SentryOAuthService.Config).

Lemma callback_rejected net t1 t2 st sess query :
  state_accepted sess query = false ->
  api_auth_callback env config net t1 t2 st sess query =
  {| response := Json 400 (ErrorBody "Invalid state parameter");
     session := sess; store := st; sent := [] |}.
Proof.
  unfold state_accepted, api_auth_callback. intro E.
  rewrite <- negb_andb, E. reflexivity.
Qed.

Lemma callback_accepted net t1 t2 st sess query :
  state_accepted sess query = true ->
  oauthState (session (api_auth_callback env config net t1 t2 st sess query))
  = None.
Proof.
  unfold state_accepted, api_auth_callback. intro E.
  rewrite <- negb_andb, E. simpl.
  destruct (negb (Js.truthy (code query))); [reflexivity|].
  destruct (SentryOAuthService.completeOAuthFlow _ _ _) as [[[u tok]|e] reqs];
    [|reflexivity].
  destruct (upsert _ _ _ _ _) as [[user st1]|e]; reflexivity.
Qed.

Lemma upsert_never_throws st sentryUser accessToken t1 t2 :
  exists user st', upsert st sentryUser accessToken t1 t2 = Ok (user, st').
Proof.
  unfold upsert, SimpleUserStore.findUserBySentryId, SimpleUserStore.updateUser.
  destruct (JsMap.get _ _) as [existing|]; do 2 eexists; reflexivity.
Qed.



(** C1 (as the code has it).  The pending state is deleted by a callback
    whose [state] is accepted; a callback whose [state] is missing or
    different is answered 400 "Invalid state parameter" and leaves the
    session, pending state included, as it was.  In both cases a second
    callback replaying the same [state] and [code] on the resulting
    session is refused with 400 "Invalid state parameter". *)
Theorem callback_state_single_use net t1 t2 st sess query :
  let o := api_auth_callback env config net t1 t2 st sess query in
  (state_accepted sess query = true -> oauthState (session o) = None)
  /\ (state_accepted sess query = false ->
      session o = sess
      /\ response o = Json 400 (ErrorBody "Invalid state parameter"))
  /\ (forall net' t1' t2',
      let o' := api_auth_callback env config net' t1' t2'
                                  (store o) (session o) query in
      response o' = Json 400 (ErrorBody "Invalid state parameter")
      /\ session o' = session o
      /\ store o' = store o
      /\ sent o' = []).
Proof.
  intro o. split; [|split].
  - apply callback_accepted.
  - intro E. subst o. rewrite (callback_rejected _ _ _ _ _ _ E). now split.
  - intros net' t1' t2' o'.
    assert (R : state_accepted (session o) query = false).
    { destruct (state_accepted sess query) eqn:E.
      - pose proof (callback_accepted net t1 t2 st sess query E) as D.
        fold o in D. unfold state_accepted. rewrite D.
        unfold state_accepted in E. apply andb_prop in E as [T _].
        rewrite T. destruct (state query); [reflexivity|discriminate].
      - subst o. now rewrite (callback_rejected _ _ _ _ _ _ E). }
    subst o'. rewrite (callback_rejected _ _ _ _ _ _ R). repeat split.
Qed.


End Callback.

Section CallbackExamples.
Import IO Server Samples.

Lemma callback_state_single_use_witness :
  state_accepted Samples.awaiting matching = true
  /\ oauthState (session (api_auth_callback Samples.env Samples.config
                            Samples.offline "t1" "t2"
                            SimpleUserStore.constructor
                            Samples.awaiting matching)) = None.
Proof.
  split; [reflexivity|].
  apply (proj1 (callback_state_single_use Samples.env Samples.config
                  Samples.offline "t1" "t2" SimpleUserStore.constructor
                  Samples.awaiting matching)).
  reflexivity.
Defined.

(** A callback with a forged [state] leaves the pending state ["S"] in
    the session, and the callback that then arrives with ["S"] is
    accepted. *)
Lemma callback_keeps_state_on_mismatch :
  let o := api_auth_callback Samples.env Samples.config Samples.offline
             "t1" "t2" SimpleUserStore.constructor Samples.awaiting forged in
  response o = Json 400 (ErrorBody "Invalid state parameter")
  /\ oauthState (session o) = Some "S"
  /\ oauthState (session o) <> None
  /\ state_accepted (session o) matching = true.
Proof. repeat split; discriminate. Qed.



End CallbackExamples.

(* ================================================================= *)
(** * What the error redirect carries *)

Section ErrorRedirect.
Import IO Server.

Variables (env : Env) (config : SentryOAuthService.Config).




End ErrorRedirect.

Section ErrorRedirectExamples.
Import IO Server Samples.



End ErrorRedirectExamples.

(* ================================================================= *)
(** * Facts about [Map] *)

Section JsMapFacts.
Context {K V : Type} `{JsMap.Key K}.
Implicit Types (m : JsMap.t K V) (k : K) (v : V).

Lemma keqb_refl k : JsMap.keqb k k = true.
Proof. now apply JsMap.keqb_spec. Qed.

Lemma keqb_neq k k' : k <> k' -> JsMap.keqb k k' = false.
Proof.
  intro N. destruct (JsMap.keqb k k') eqn:E; [|reflexivity].
  apply JsMap.keqb_spec in E. contradiction.
Qed.

Lemma get_set_eq m k v : JsMap.get (JsMap.set m k v) k = Some v.
Proof.
  induction m as [|[k' v'] r IH]; simpl.
  - now rewrite keqb_refl.
  - destruct (JsMap.keqb k' k) eqn:E; simpl; rewrite E; auto.
Qed.

Lemma get_set_ne m k v k' :
  k <> k' -> JsMap.get (JsMap.set m k v) k' = JsMap.get m k'.
Proof.
  intro N. induction m as [|[k0 v0] r IH]; simpl.
  - now rewrite (keqb_neq _ _ N).
  - destruct (JsMap.keqb k0 k) eqn:E; simpl.
    + apply JsMap.keqb_spec in E. subst k0. now rewrite (keqb_neq _ _ N).
    + now rewrite IH.
Qed.

Lemma get_In m k v : JsMap.get m k = Some v -> In (k, v) m.
Proof.
  induction m as [|[k' v'] r IH]; simpl; [discriminate|].
  destruct (JsMap.keqb k' k) eqn:E.
  - apply JsMap.keqb_spec in E. intros [= ->]. subst. now left.
  - intro G. right. now apply IH.
Qed.

Lemma get_None_notin m k : JsMap.get m k = None -> ~ In k (JsMap.keys m).
Proof.
  induction m as [|[k' v'] r IH]; simpl; [tauto|].
  destruct (JsMap.keqb k' k) eqn:E; [discriminate|].
  intros G [->|I].
  - rewrite keqb_refl in E. discriminate.
  - now apply IH.
Qed.

Lemma In_get m k v : NoDup (JsMap.keys m) -> In (k, v) m -> JsMap.get m k = Some v.
Proof.
  induction m as [|[k' v'] r IH]; simpl; [tauto|].
  intros D [E|I].
  - inversion E. subst. now rewrite keqb_refl.
  - inversion D as [|? ? N D']. subst.
    destruct (JsMap.keqb k' k) eqn:E.
    + apply JsMap.keqb_spec in E. subst k'.
      exfalso. apply N. change k with (fst (k, v)). now apply in_map.
    + now apply IH.
Qed.

Lemma In_set m k v k' v' :
  In (k', v') (JsMap.set m k v) -> (k' = k /\ v' = v) \/ In (k', v') m.
Proof.
  induction m as [|[k0 v0] r IH]; simpl.
  - intros [[= <- <-]|[]]. now left.
  - destruct (JsMap.keqb k0 k) eqn:E; simpl.
    + apply JsMap.keqb_spec in E. subst k0.
      intros [[= <- <-]|I]; [now left | now right; right].
    + intros [E'|I]; [now right; left|].
      destruct (IH I) as [L|R]; [now left | now right; right].
Qed.

Lemma In_delete m k x : In x (JsMap.delete m k) -> In x m.
Proof.
  induction m as [|[k0 v0] r IH]; simpl; [tauto|].
  destruct (JsMap.keqb k0 k); simpl; [now right|].
  intros [E|I]; [now left | right; now apply IH].
Qed.

Lemma keys_set_present m k v v0 :
  JsMap.get m k = Some v0 -> JsMap.keys (JsMap.set m k v) = JsMap.keys m.
Proof.
  unfold JsMap.keys.
  induction m as [|[k' v'] r IH]; simpl; [discriminate|].
  destruct (JsMap.keqb k' k) eqn:E; simpl; [reflexivity|].
  intro G. now rewrite IH.
Qed.

Lemma keys_set_absent m k v :
  JsMap.get m k = None ->
  JsMap.keys (JsMap.set m k v) = (JsMap.keys m ++ [k])%list.
Proof.
  unfold JsMap.keys.
  induction m as [|[k' v'] r IH]; simpl; [reflexivity|].
  destruct (JsMap.keqb k' k) eqn:E; simpl; [discriminate|].
  intro G. now rewrite IH.
Qed.

Lemma size_set_present m k v v0 :
  JsMap.get m k = Some v0 -> JsMap.size (JsMap.set m k v) = JsMap.size m.
Proof.
  intro G. unfold JsMap.size.
  rewrite <- (length_map fst (JsMap.set m k v)), <- (length_map fst m).
  fold (JsMap.keys (JsMap.set m k v)). fold (JsMap.keys m).
  now rewrite (keys_set_present _ _ _ _ G).
Qed.

Lemma size_set_absent m k v :
  JsMap.get m k = None -> JsMap.size (JsMap.set m k v) = S (JsMap.size m).
Proof.
  intro G. unfold JsMap.size.
  rewrite <- (length_map fst (JsMap.set m k v)), <- (length_map fst m).
  fold (JsMap.keys (JsMap.set m k v)). fold (JsMap.keys m).
  rewrite (keys_set_absent _ _ _ G), length_app. simpl. lia.
Qed.

Lemma NoDup_keys_set m k v :
  NoDup (JsMap.keys m) -> NoDup (JsMap.keys (JsMap.set m k v)).
Proof.
  intro D. destruct (JsMap.get m k) as [v0|] eqn:G.
  - now rewrite (keys_set_present _ _ _ _ G).
  - rewrite (keys_set_absent _ _ _ G).
    apply NoDup_app; [assumption | repeat constructor; tauto |].
    intros x I [<-|[]]. now apply (get_None_notin _ _ G).
Qed.

End JsMapFacts.

(* ================================================================= *)
(** * The directory keeps its indexes consistent *)

Section DirectoryInvariant.
Import SimpleUserStore Directory.

Lemma constructor_ok : store_ok SimpleUserStore.constructor.
Proof.
  unfold store_ok, ids_ok, sentry_index_ok, email_index_ok. simpl.
  split; [split; [lia | split; [constructor | intros k u []]] | split].
  - intros sid u. split; [discriminate | intros [G _]; discriminate G].
  - intros e u [].
Qed.

Lemma stored_id_below_next s k u :
  ids_ok s -> JsMap.get (users s) k = Some u ->
  User.id u = k /\ 1 <= k /\ k < nextId s.
Proof.
  intros (_ & _ & I) G. apply I. now apply get_In.
Qed.

Lemma next_id_unused s : ids_ok s -> JsMap.get (users s) (nextId s) = None.
Proof.
  intros (_ & _ & I).
  destruct (JsMap.get (users s) (nextId s)) as [u|] eqn:G; [|reflexivity].
  apply get_In, I in G. lia.
Qed.

Lemma createUser_ok s sentryUser accessToken t1 t2 :
  store_ok s ->
  findUserBySentryId s (SentryUser.id sentryUser) = None ->
  store_ok (snd (createUser s sentryUser accessToken t1 t2)).
Proof.
  intros (I & X & M) F. unfold findUserBySentryId in F.
  pose proof (next_id_unused s I) as U.
  destruct I as (P & D & I).
  unfold createUser. simpl.
  set (user := User.mk (nextId s) _ _ _ _ _ _ _ _).
  unfold store_ok, ids_ok, sentry_index_ok, email_index_ok. simpl.
  split; [split; [|split] | split].
  - lia.
  - now apply NoDup_keys_set.
  - intros k u H. apply In_set in H as [[-> ->]|H].
    + simpl. lia.
    + apply I in H. lia.
  - intros sid u. split.
    + intro H.
      destruct (string_dec (SentryUser.id sentryUser) sid) as [<-|N].
      * rewrite get_set_eq in H. injection H as <-. simpl.
        split; [apply get_set_eq | reflexivity].
      * rewrite get_set_ne in H by assumption.
        apply X in H as [G S]. split; [|assumption].
        rewrite get_set_ne; [assumption|].
        intros E. rewrite <- E, U in G. discriminate.
    + intros [G S].
      destruct (Nat.eq_dec (nextId s) (User.id u)) as [E|N].
      * rewrite <- E, get_set_eq in G. injection G as <-.
        simpl in S. subst sid. apply get_set_eq.
      * rewrite get_set_ne in G by assumption.
        assert (B : JsMap.get (usersBySentryId s) sid = Some u) by now apply X.
        rewrite get_set_ne; [assumption|].
        intros E. rewrite <- E, F in B. discriminate.
  - intros e u H. apply In_set in H as [[-> ->]|H]; [reflexivity | now apply M].
Qed.

Lemma updateUser_ok s sentryUser accessToken t1 user s' :
  store_ok s ->
  updateUser s sentryUser accessToken t1 = Ok (user, s') ->
  store_ok s'.
Proof.
  intros (I & X & M). unfold updateUser.
  destruct (JsMap.get (usersBySentryId s) (SentryUser.id sentryUser))
    as [existing|] eqn:F; [|discriminate].
  destruct (proj1 (X _ _) F) as [G S].
  intros [= <- <-].
  set (updated := User.mk (User.id existing) _ _ _ _ _ _ _ _).
  pose proof (stored_id_below_next _ _ _ I G) as (_ & B1 & B2).
  destruct I as (P & D & I).
  unfold store_ok, ids_ok, sentry_index_ok, email_index_ok. simpl.
  split; [split; [|split] | split].
  - assumption.
  - now apply NoDup_keys_set.
  - intros k u H. apply In_set in H as [[-> ->]|H].
    + simpl. lia.
    + now apply I in H.
  - intros sid u. split.
    + intro H.
      destruct (string_dec (User.sentry_id existing) sid) as [<-|N].
      * rewrite get_set_eq in H. injection H as <-. simpl.
        split; [apply get_set_eq | reflexivity].
      * rewrite get_set_ne in H by assumption.
        apply X in H as [Gu Su]. split; [|assumption].
        rewrite get_set_ne; [assumption|].
        intros E. rewrite <- E, G in Gu. injection Gu as <-. contradiction.
    + intros [Gu Su].
      destruct (Nat.eq_dec (User.id existing) (User.id u)) as [E|N].
      * rewrite <- E, get_set_eq in Gu. injection Gu as <-.
        simpl in Su. subst sid. apply get_set_eq.
      * rewrite get_set_ne in Gu by assumption.
        assert (B : JsMap.get (usersBySentryId s) sid = Some u) by now apply X.
        rewrite get_set_ne; [assumption|].
        intros E. rewrite <- E, S, F in B. injection B as <-. contradiction.
  - intros e u.
    destruct (negb (User.email existing =? SentryUser.email sentryUser)).
    + intro H. apply In_set in H as [[-> ->]|H]; [reflexivity|].
      apply In_delete in H. now apply M.
    + apply M.
Qed.

Lemma upsert_ok s sentryUser accessToken t1 t2 user s' :
  store_ok s ->
  Server.upsert s sentryUser accessToken t1 t2 = Ok (user, s') ->
  store_ok s'.
Proof.
  intro O. unfold Server.upsert.
  destruct (findUserBySentryId s (SentryUser.id sentryUser)) eqn:F.
  - now apply updateUser_ok.
  - intros [= <- <-].
    apply (createUser_ok s sentryUser accessToken t1 t2 O F).
Qed.

Lemma reachable_ok s : reachable s -> store_ok s.
Proof.
  induction 1 as [|s p tok t1 t2 u s' R IH U].
  - apply constructor_ok.
  - now apply (upsert_ok s p tok t1 t2 u s').
Qed.

Lemma store_ok_one_user_per_provider s : store_ok s -> one_user_per_provider s.
Proof.
  intros ((P & D & I) & X & _) k1 u1 k2 u2 I1 I2 E.
  pose proof (I _ _ I1) as (E1 & _). pose proof (I _ _ I2) as (E2 & _).
  apply (In_get _ _ _ D) in I1, I2.
  assert (B1 : JsMap.get (usersBySentryId s) (User.sentry_id u1) = Some u1).
  { apply X. now rewrite E1. }
  assert (B2 : JsMap.get (usersBySentryId s) (User.sentry_id u1) = Some u2).
  { apply X. now rewrite E2. }
  rewrite B1 in B2. injection B2 as <-. split; [congruence | reflexivity].
Qed.

End DirectoryInvariant.

(* ================================================================= *)
(** * Create-or-update *)

Section Upsert.
Import SimpleUserStore Directory.

Lemma upsert_existing s sentryUser accessToken t1 t2 existing :
  findUserBySentryId s (SentryUser.id sentryUser) = Some existing ->
  exists user s',
    Server.upsert s sentryUser accessToken t1 t2 = Ok (user, s')
    /\ User.id user = User.id existing
    /\ User.sentry_id user = User.sentry_id existing
    /\ User.created_at user = User.created_at existing
    /\ User.email user = SentryUser.email sentryUser
    /\ User.name user = SentryUser.name sentryUser
    /\ User.username user = SentryUser.username sentryUser
    /\ User.avatar_url user =
       Avatar.or (Avatar.avatarUrl_of (SentryUser.avatar sentryUser))
                 (SentryUser.avatar sentryUser)
    /\ User.access_token user = accessToken
    /\ User.updated_at user = t1
    /\ users s' = JsMap.set (users s) (User.id existing) user
    /\ usersBySentryId s' =
       JsMap.set (usersBySentryId s) (User.sentry_id existing) user
    /\ nextId s' = nextId s.
Proof.
  intro F. unfold Server.upsert. rewrite F.
  unfold findUserBySentryId in F. unfold updateUser. rewrite F.
  do 2 eexists. repeat split.
Qed.

Lemma upsert_new s sentryUser accessToken t1 t2 :
  findUserBySentryId s (SentryUser.id sentryUser) = None ->
  exists user s',
    Server.upsert s sentryUser accessToken t1 t2 = Ok (user, s')
    /\ User.id user = nextId s
    /\ User.sentry_id user = SentryUser.id sentryUser
    /\ User.created_at user = t1
    /\ User.email user = SentryUser.email sentryUser
    /\ User.name user = SentryUser.name sentryUser
    /\ User.username user = SentryUser.username sentryUser
    /\ User.avatar_url user =
       Avatar.or (Avatar.avatarUrl_of (SentryUser.avatar sentryUser))
                 (SentryUser.avatar sentryUser)
    /\ User.access_token user = accessToken
    /\ User.updated_at user = t2
    /\ users s' = JsMap.set (users s) (nextId s) user
    /\ usersBySentryId s' =
       JsMap.set (usersBySentryId s) (SentryUser.id sentryUser) user
    /\ nextId s' = S (nextId s).
Proof.
  intro F. unfold Server.upsert. rewrite F. unfold createUser.
  do 2 eexists. repeat split.
Qed.

Lemma user_eta (u v : User.t) :
  User.id u = User.id v -> User.sentry_id u = User.sentry_id v ->
  User.email u = User.email v -> User.name u = User.name v ->
  User.username u = User.username v -> User.avatar_url u = User.avatar_url v ->
  User.access_token u = User.access_token v ->
  User.created_at u = User.created_at v ->
  User.updated_at u = User.updated_at v -> u = v.
Proof. destruct u, v. simpl. intros. now subst. Qed.

(** After a create-or-update for [sentryUser], the directory holds the
    returned user under its id and finds it under the provider id. *)
Lemma upsert_indexed s sentryUser accessToken t1 t2 user s' :
  store_ok s ->
  Server.upsert s sentryUser accessToken t1 t2 = Ok (user, s') ->
  findUserBySentryId s' (SentryUser.id sentryUser) = Some user
  /\ findUserById s' (User.id user) = Some user
  /\ User.sentry_id user = SentryUser.id sentryUser.
Proof.
  intros O U. unfold findUserBySentryId, findUserById.
  destruct (findUserBySentryId s (SentryUser.id sentryUser)) as [ex|] eqn:F.
  - destruct (upsert_existing s sentryUser accessToken t1 t2 ex F)
      as (u & s1 & U' & Ei & Es & _ & _ & _ & _ & _ & _ & _ & Hu & Hx & _).
    rewrite U in U'. injection U' as <- <-.
    destruct O as (_ & X & _).
    destruct (proj1 (X _ _) F) as [_ S].
    rewrite Hu, Hx, S, <- Ei. rewrite !get_set_eq. repeat split. congruence.
  - destruct (upsert_new s sentryUser accessToken t1 t2 F)
      as (u & s1 & U' & Ei & Es & _ & _ & _ & _ & _ & _ & _ & Hu & Hx & _).
    rewrite U in U'. injection U' as <- <-.
    rewrite Hu, Hx, <- Ei. rewrite !get_set_eq. repeat split. assumption.
Qed.

(** C6.  From any state the directory can reach, two create-or-update
    steps in a row with the same profile and token both succeed; the second
    returns the user of the first with only [updated_at] refreshed (same
    local id, same fields), and leaves the number of users and [nextId] as
    they were.  At all times no two users share a provider id, no local id
    is used twice, every local id is below [nextId], and a user that is
    created takes [nextId], above every id in use, while a user that is
    found keeps its id. *)
Theorem upsert_twice s sentryUser accessToken t1 t2 t3 t4 :
  reachable s ->
  exists u1 s1 u2 s2,
    Server.upsert s sentryUser accessToken t1 t2 = Ok (u1, s1)
    /\ Server.upsert s1 sentryUser accessToken t3 t4 = Ok (u2, s2)
    /\ User.id u2 = User.id u1
    /\ u2 = touched u1 t3
    /\ JsMap.size (users s2) = JsMap.size (users s1)
    /\ nextId s2 = nextId s1
    /\ findUserBySentryId s2 (SentryUser.id sentryUser) = Some u2
    /\ findUserById s2 (User.id u1) = Some u2
    /\ (one_user_per_provider s /\ one_user_per_provider s1
        /\ one_user_per_provider s2)
    /\ (ids_ok s /\ ids_ok s1 /\ ids_ok s2)
    /\ (findUserBySentryId s (SentryUser.id sentryUser) = None ->
        User.id u1 = nextId s
        /\ nextId s1 = S (nextId s)
        /\ JsMap.size (users s1) = S (JsMap.size (users s))
        /\ forall k u, In (k, u) (users s) -> k < User.id u1)
    /\ (forall existing,
        findUserBySentryId s (SentryUser.id sentryUser) = Some existing ->
        User.id u1 = User.id existing
        /\ nextId s1 = nextId s
        /\ JsMap.size (users s1) = JsMap.size (users s)).
Proof.
  intro R. pose proof (reachable_ok s R) as O.
  destruct (Server.upsert s sentryUser accessToken t1 t2) as [[u1 s1]|e] eqn:U1.
  2:{ destruct (upsert_never_throws s sentryUser accessToken t1 t2)
        as (u & s' & E). rewrite E in U1. discriminate. }
  pose proof (upsert_ok _ _ _ _ _ _ _ O U1) as O1.
  destruct (upsert_indexed _ _ _ _ _ _ _ O U1) as (F1 & G1 & S1).
  destruct (upsert_existing s1 sentryUser accessToken t3 t4 u1 F1)
    as (u2 & s2 & U2 & Ei & Es & Ec & Ee & En & Eu & Ea & Et & Ed & Hu & Hx & Hn).
  pose proof (upsert_ok _ _ _ _ _ _ _ O1 U2) as O2.
  destruct (upsert_indexed _ _ _ _ _ _ _ O1 U2) as (F2 & G2 & S2).
  exists u1, s1, u2, s2.
  assert (P1 : User.email u1 = SentryUser.email sentryUser
               /\ User.name u1 = SentryUser.name sentryUser
               /\ User.username u1 = SentryUser.username sentryUser
               /\ User.avatar_url u1 =
                  Avatar.or (Avatar.avatarUrl_of (SentryUser.avatar sentryUser))
                            (SentryUser.avatar sentryUser)
               /\ User.access_token u1 = accessToken).
  { destruct (findUserBySentryId s (SentryUser.id sentryUser)) as [ex|] eqn:F.
    - destruct (upsert_existing s sentryUser accessToken t1 t2 ex F)
        as (u & s' & U' & _ & _ & _ & ? & ? & ? & ? & ? & _).
      rewrite U1 in U'. injection U' as <- <-. tauto.
    - destruct (upsert_new s sentryUser accessToken t1 t2 F)
        as (u & s' & U' & _ & _ & _ & ? & ? & ? & ? & ? & _).
      rewrite U1 in U'. injection U' as <- <-. tauto. }
  destruct P1 as (Pe & Pn & Pu & Pa & Pt).
  split; [reflexivity|]. split; [assumption|]. split; [assumption|].
  split. { apply user_eta; simpl; congruence. }
  split. { rewrite Hu. now apply (size_set_present _ _ _ u1). }
  split; [assumption|]. split; [assumption|].
  split. { now rewrite <- Ei. }
  split. { split; [|split]; now apply store_ok_one_user_per_provider. }
  split. { split; [|split]; [apply O | apply O1 | apply O2]. }
  split.
  - intro F.
    destruct (upsert_new s sentryUser accessToken t1 t2 F)
      as (u & s' & U' & Hi & _ & _ & _ & _ & _ & _ & _ & _ & Hus & _ & Hns).
    rewrite U1 in U'. injection U' as <- <-.
    split; [assumption|]. split; [assumption|]. split.
    + rewrite Hus. apply size_set_absent. now apply next_id_unused, O.
    + intros k u I. rewrite Hi. destruct O as ((_ & _ & B) & _).
      apply B in I. lia.
  - intros ex F.
    destruct (upsert_existing s sentryUser accessToken t1 t2 ex F)
      as (u & s' & U' & Hi & _ & _ & _ & _ & _ & _ & _ & _ & Hus & _ & Hns).
    rewrite U1 in U'. injection U' as <- <-.
    split; [assumption|]. split; [assumption|].
    rewrite Hus. apply (size_set_present _ _ _ ex).
    destruct O as (_ & X & _). now apply X in F.
Qed.

End Upsert.

Section UpsertExamples.
Import SimpleUserStore Directory Samples.

Lemma upsert_twice_witness :
  exists u1 s1 u2 s2,
    Server.upsert SimpleUserStore.constructor profile (Some "T") "t1" "t2"
    = Ok (u1, s1)
    /\ Server.upsert s1 profile (Some "T") "t3" "t4" = Ok (u2, s2)
    /\ User.id u2 = User.id u1
    /\ JsMap.size (users s2) = JsMap.size (users s1).
Proof.
  destruct (upsert_twice SimpleUserStore.constructor profile (Some "T")
              "t1" "t2" "t3" "t4" reach_constructor)
    as (u1 & s1 & u2 & s2 & A & B & C & _ & D & _).
  exists u1, s1, u2, s2. repeat split; assumption.
Defined.

End UpsertExamples.

(* ================================================================= *)
(** * Two provider identities with one email *)

Section EmailIndex.
Import SimpleUserStore Directory.

(** C10.  In a directory the server can reach, let [old] be a stored user
    and let [createUser] be called for a profile with the email of [old]
    and another provider id.  Then the index by email is overwritten:
    [findUserByEmail] returns the new user for that email; [old] is still
    found by its local id and by its provider id, and no email finds it
    any more. *)
Theorem createUser_overwrites_email s sentryUser accessToken t1 t2 old :
  reachable s ->
  findUserById s (User.id old) = Some old ->
  User.email old = SentryUser.email sentryUser ->
  User.sentry_id old <> SentryUser.id sentryUser ->
  let created := fst (createUser s sentryUser accessToken t1 t2) in
  let s' := snd (createUser s sentryUser accessToken t1 t2) in
  findUserByEmail s' (SentryUser.email sentryUser) = Some created
  /\ created <> old
  /\ User.sentry_id created = SentryUser.id sentryUser
  /\ findUserById s' (User.id old) = Some old
  /\ findUserBySentryId s' (User.sentry_id old) = Some old
  /\ forall e, findUserByEmail s' e <> Some old.
Proof.
  intros R G E N created s'.
  pose proof (reachable_ok s R) as (I & X & M).
  unfold findUserById in G.
  pose proof (stored_id_below_next _ _ _ I G) as (_ & _ & B).
  assert (Nid : User.id created <> User.id old) by (simpl; lia).
  assert (Nu : created <> old) by (intros C; apply Nid; now rewrite C).
  subst s'. unfold findUserByEmail, findUserById, findUserBySentryId. simpl.
  fold created.
  split; [apply get_set_eq|]. split; [assumption|]. split; [reflexivity|].
  split. { rewrite get_set_ne; [assumption | simpl in Nid; exact Nid]. }
  split. { rewrite get_set_ne; [now apply X | congruence]. }
  intros e H.
  destruct (string_dec (SentryUser.email sentryUser) e) as [<-|Ne].
  - rewrite get_set_eq in H. injection H as H. contradiction.
  - rewrite get_set_ne in H by assumption.
    apply get_In, M in H. congruence.
Qed.

End EmailIndex.

Section EmailIndexExamples.
Import SimpleUserStore Directory Samples.

Lemma one_user_reachable : reachable one_user.
Proof.
  apply (reach_upsert SimpleUserStore.constructor profile (Some "T") "t1" "t2"
           (fst (createUser SimpleUserStore.constructor profile (Some "T")
                   "t1" "t2"))).
  - apply reach_constructor.
  - reflexivity.
Defined.

Lemma createUser_overwrites_email_witness :
  let old := fst (createUser SimpleUserStore.constructor profile (Some "T")
                    "t1" "t2") in
  let created := fst (createUser one_user homonym (Some "T'") "t3" "t4") in
  let s' := snd (createUser one_user homonym (Some "T'") "t3" "t4") in
  findUserByEmail one_user "u@x.com" = Some old
  /\ findUserByEmail s' "u@x.com" = Some created
  /\ created <> old
  /\ User.sentry_id created = "u2"
  /\ findUserById s' 1 = Some old
  /\ findUserBySentryId s' "u1" = Some old
  /\ forall e, findUserByEmail s' e <> Some old.
Proof.
  split; [reflexivity|].
  apply (createUser_overwrites_email one_user homonym (Some "T'") "t3" "t4"
           (fst (createUser SimpleUserStore.constructor profile (Some "T")
                   "t1" "t2"))
           one_user_reachable).
  - reflexivity.
  - reflexivity.
  - discriminate.
Defined.

End EmailIndexExamples.

(* ================================================================= *)
(** * The current user *)

Section CurrentUser.
Import IO Server SimpleUserStore Directory.

Lemma new_session_ok : session_ok new_session.
Proof. intros n E. discriminate E. Qed.

Lemma login_session_ok config uuid sess :
  session_ok sess -> session_ok (snd (api_auth_login config uuid sess)).
Proof. intros S n E. now apply S. Qed.

(** The callback takes the directory to a state it can reach, and binds
    the session to ids from 1 on only. *)
Lemma callback_preserves env config net t1 t2 st sess query :
  reachable st -> session_ok sess ->
  let o := api_auth_callback env config net t1 t2 st sess query in
  reachable (store o) /\ session_ok (session o).
Proof.
  intros R S. unfold api_auth_callback.
  destruct (_ || _); [now split|].
  destruct (negb (Js.truthy (code query))); [now split|].
  destruct (SentryOAuthService.completeOAuthFlow _ _ _)
    as [[[sentryUser accessToken]|e] reqs]; [|now split].
  destruct (upsert st sentryUser accessToken t1 t2) as [[user st1]|e] eqn:U;
    [|now split].
  simpl. split.
  - now apply (reach_upsert st sentryUser accessToken t1 t2 user st1).
  - intros n [= <-].
    pose proof (upsert_ok _ _ _ _ _ _ _ (reachable_ok _ R) U) as O1.
    destruct (upsert_indexed _ _ _ _ _ _ _ (reachable_ok _ R) U) as (_ & G & _).
    destruct O1 as (I & _).
    now apply (stored_id_below_next _ _ _ I G).
Qed.

(** C8.  For a directory the server can reach and every session: a
    session bound to the id of a stored user is answered 200 with that
    user's record without its [access_token], every other field as stored,
    and the session is kept; a session bound to an id with no record is
    answered 401 and the session is destroyed; a session bound to no id is
    answered 401.  (Ids are assigned from 1 on, and sessions are bound to
    assigned ids only; a [userId] of 0 counts as none.) *)
Theorem current_user st sess :
  reachable st ->
  (forall n user,
      userId sess = Some n -> findUserById st n = Some user ->
      exists safe,
        api_auth_me st sess = (Json 200 (UserBody safe), Some sess)
        /\ SafeUser.id safe = User.id user
        /\ SafeUser.sentry_id safe = User.sentry_id user
        /\ SafeUser.email safe = User.email user
        /\ SafeUser.name safe = User.name user
        /\ SafeUser.username safe = User.username user
        /\ SafeUser.avatar_url safe = User.avatar_url user
        /\ SafeUser.created_at safe = User.created_at user
        /\ SafeUser.updated_at safe = User.updated_at user)
  /\ (forall n,
         userId sess = Some n -> 1 <= n -> findUserById st n = None ->
         api_auth_me st sess = (Json 401 (ErrorBody "User not found"), None))
  /\ (userId sess = None \/ userId sess = Some 0 ->
      api_auth_me st sess
      = (Json 401 (ErrorBody "Authentication required"), Some sess)).
Proof.
  intros R. unfold api_auth_me, requireAuth. split; [|split].
  - intros n user E F. rewrite E.
    assert (P : 1 <= n).
    { destruct (reachable_ok st R) as (I & _).
      now apply (stored_id_below_next _ _ _ I F). }
    destruct (Nat.eqb_spec n 0) as [->|_]; [lia|]. simpl. rewrite F.
    eexists. split; [reflexivity|]. repeat split.
  - intros n E P F. rewrite E.
    destruct (Nat.eqb_spec n 0) as [->|_]; [lia|]. simpl. now rewrite F.
  - intros [->| ->]; reflexivity.
Qed.

End CurrentUser.

Section CurrentUserExamples.
Import IO Server SimpleUserStore Directory Samples.

Lemma current_user_witness :
  (exists safe,
      api_auth_me one_user logged_in = (Json 200 (UserBody safe), Some logged_in)
      /\ SafeUser.id safe = 1
      /\ SafeUser.email safe = "u@x.com")
  /\ api_auth_me one_user stale = (Json 401 (ErrorBody "User not found"), None).
Proof.
  split.
  - destruct (proj1 (current_user one_user logged_in one_user_reachable)
                1 (fst (createUser SimpleUserStore.constructor profile
                          (Some "T") "t1" "t2"))
                eq_refl eq_refl)
      as (safe & A & B & _ & C & _).
    exists safe. repeat split; assumption.
  - apply (proj1 (proj2 (current_user one_user stale one_user_reachable))
             7 eq_refl ltac:(lia) eq_refl).
Defined.

End CurrentUserExamples.

(* ================================================================= *)
(** * The statistics of the directory *)

Section Stats.
Import Server SimpleUserStore Directory.

Lemma stats_entry_with_token user token :
  stats_entry (with_token user token) = stats_entry user.
Proof. reflexivity. Qed.

Lemma stats_users_same m1 m2 :
  Forall2 (fun e1 e2 : nat * User.t =>
             fst e1 = fst e2
             /\ with_token (snd e1) None = with_token (snd e2) None) m1 m2 ->
  map stats_entry (JsMap.values m1) = map stats_entry (JsMap.values m2).
Proof.
  induction 1 as [|[k1 u1] [k2 u2] r1 r2 [_ E] _ IH]; simpl; [reflexivity|].
  simpl in E. f_equal; [|exact IH].
  rewrite <- (stats_entry_with_token u1 None), E. reflexivity.
Qed.

(** C9.  For every state of the directory, [getStats] gives [totalUsers],
    the number of stored users, and one entry per stored user, in order,
    made of its [id], [sentry_id], [email], [name] and [created_at].  Two
    directories that hold the same users up to their access tokens have
    the same statistics, and GET /api/demo/stats, which consults no
    session, answers the same for both. *)
Theorem stats_independent_of_tokens :
  (forall s,
      totalUsers (getStats s) = length (users s)
      /\ length (stats_users (getStats s)) = totalUsers (getStats s)
      /\ Forall2 (fun entry user =>
                    StatsEntry.id entry = User.id user
                    /\ StatsEntry.sentry_id entry = User.sentry_id user
                    /\ StatsEntry.email entry = User.email user
                    /\ StatsEntry.name entry = User.name user
                    /\ StatsEntry.created_at entry = User.created_at user)
                 (stats_users (getStats s)) (JsMap.values (users s)))
  /\ (forall s1 s2,
         same_up_to_tokens s1 s2 ->
         getStats s1 = getStats s2
         /\ api_demo_stats s1 = api_demo_stats s2).
Proof.
  split.
  - intro s. unfold getStats, JsMap.size, JsMap.values. simpl.
    split; [reflexivity|]. split; [now rewrite !length_map|].
    induction (users s) as [|[k u] r IH]; simpl; constructor; auto.
  - intros s1 s2 E.
    assert (G : getStats s1 = getStats s2).
    { unfold getStats, JsMap.size. f_equal.
      - apply (Forall2_length E).
      - now apply stats_users_same. }
    split; [exact G|]. unfold api_demo_stats. now rewrite G.
Qed.

End Stats.

Section StatsExamples.
Import Server SimpleUserStore Directory Samples.

Lemma stats_independent_of_tokens_witness :
  User.access_token (fst (createUser SimpleUserStore.constructor profile
                            (Some "T") "t1" "t2"))
  <> User.access_token (fst (createUser SimpleUserStore.constructor profile
                               (Some "T2") "t1" "t2"))
  /\ getStats one_user = getStats one_user_new_token
  /\ api_demo_stats one_user = api_demo_stats one_user_new_token.
Proof.
  split; [discriminate|].
  apply (proj2 stats_independent_of_tokens one_user one_user_new_token).
  repeat constructor.
Defined.

End StatsExamples.

(* ================================================================= *)
(** * Profile resolution *)

Section ProfileResolution.
Import IO SentryOAuthService.

Variable config : Config.

Lemma try_endpoint_usable net accessToken userUrl userData :
  usable_profile (user_endpoint net (user_request accessToken userUrl))
  = Some userData ->
  try_endpoint accessToken userUrl net
  = (Ok (Return (normalize userData)), [user_request accessToken userUrl]).
Proof.
  unfold usable_profile, try_endpoint, try_catch, bind, fetch, await_json.
  destruct (user_endpoint net _) as [e|r]; [discriminate|].
  destruct (ok r); [|discriminate].
  destruct (json r) as [d|e]; [|discriminate]. unfold ret.
  destruct (Js.truthy (UserData.id d)), (Js.truthy (UserData.email d));
    simpl; try discriminate.
  now intros [= ->].
Qed.

Lemma try_endpoint_unusable net accessToken userUrl :
  usable_profile (user_endpoint net (user_request accessToken userUrl)) = None ->
  exists e,
    try_endpoint accessToken userUrl net
    = (Ok (Continue e), [user_request accessToken userUrl]).
Proof.
  unfold usable_profile, try_endpoint, try_catch, bind, fetch, await_json.
  destruct (user_endpoint net _) as [e|r]; [eexists; reflexivity|].
  destruct (ok r); [|eexists; reflexivity].
  destruct (json r) as [d|e]; [|eexists; reflexivity]. unfold ret.
  destruct (Js.truthy (UserData.id d)), (Js.truthy (UserData.email d));
    simpl; try discriminate; eexists; reflexivity.
Qed.

(** One turn of the loop sends its request and throws nothing. *)
Lemma try_endpoint_total net accessToken userUrl :
  exists a,
    try_endpoint accessToken userUrl net
    = (Ok a, [user_request accessToken userUrl]).
Proof.
  destruct (usable_profile (user_endpoint net (user_request accessToken userUrl)))
    as [d|] eqn:U.
  - exists (Return (normalize d)). now apply try_endpoint_usable.
  - destruct (try_endpoint_unusable _ _ _ U) as [e E]. now exists (Continue e).
Qed.

Lemma loop_finds_first net accessToken before userUrl after userData :
  (forall u, In u before ->
             usable_profile (user_endpoint net (user_request accessToken u))
             = None) ->
  usable_profile (user_endpoint net (user_request accessToken userUrl))
  = Some userData ->
  forall lastError,
    getUserInfo_loop accessToken (before ++ userUrl :: after)%list lastError net
    = (Ok (normalize userData),
       map (user_request accessToken) (before ++ [userUrl])%list).
Proof.
  intros B U. induction before as [|u before IH]; intro lastError; simpl.
  - unfold bind. rewrite (try_endpoint_usable _ _ _ _ U). reflexivity.
  - destruct (try_endpoint_unusable net accessToken u) as [e E].
    { apply B. now left. }
    unfold bind. rewrite E.
    rewrite IH by (intros u' I; apply B; now right).
    reflexivity.
Qed.

Lemma default_name_cases userData :
  (Js.truthy (UserData.name userData) = true ->
   default_name userData = Js.str (UserData.name userData))
  /\ (Js.truthy (UserData.name userData) = false ->
      Js.truthy (UserData.username userData) = true ->
      default_name userData = Js.str (UserData.username userData))
  /\ (Js.truthy (UserData.name userData) = false ->
      Js.truthy (UserData.username userData) = false ->
      default_name userData
      = Js.before_char "@" (Js.str (UserData.email userData))).
Proof.
  unfold default_name, Js.or, Js.truthy.
  destruct (UserData.name userData) as [n|], (UserData.username userData) as [u|];
    simpl; repeat split; intros;
      repeat match goal with
             | |- context [if negb ?b then _ else _] => destruct b eqn:?; simpl in *
             | |- context [if ?b then _ else _] => destruct b eqn:?; simpl in *
             end; try discriminate; try reflexivity.
Qed.

(** C5.  [getUserInfo] goes through [possibleEndpoints] in order.  If
    [userUrl] is the first endpoint of the list whose answer is
    HTTP-successful with non-empty [id] and [email], the result is the
    normalized profile of that answer, and exactly the endpoints up to
    [userUrl] were requested.  In the profile, [id], [email] and [username]
    are those of the payload and [name] is the payload's [name], else its
    [username], else the part of [email] before the first [@].  In
    particular, when the first two endpoints answer 404 and 401 and the
    third answers 200 with [{id: "42", email: "a@b.com"}], the result is
    [{id: "42", email: "a@b.com", name: "a"}] with no username and no
    avatar. *)
Theorem getUserInfo_first_usable net accessToken :
  (forall before userUrl after userData,
      possibleEndpoints config = (before ++ userUrl :: after)%list ->
      (forall u, In u before ->
                 usable_profile (user_endpoint net (user_request accessToken u))
                 = None) ->
      usable_profile (user_endpoint net (user_request accessToken userUrl))
      = Some userData ->
      getUserInfo config accessToken net
      = (Ok (normalize userData),
         map (user_request accessToken) (before ++ [userUrl])%list)
      /\ Some (SentryUser.id (normalize userData)) = UserData.id userData
      /\ Some (SentryUser.email (normalize userData)) = UserData.email userData
      /\ SentryUser.username (normalize userData) = UserData.username userData
      /\ SentryUser.name (normalize userData) = default_name userData)
  /\ (forall userData,
         (Js.truthy (UserData.name userData) = true ->
          default_name userData = Js.str (UserData.name userData))
         /\ (Js.truthy (UserData.name userData) = false ->
             Js.truthy (UserData.username userData) = true ->
             default_name userData = Js.str (UserData.username userData))
         /\ (Js.truthy (UserData.name userData) = false ->
             Js.truthy (UserData.username userData) = false ->
             default_name userData
             = Js.before_char "@" (Js.str (UserData.email userData))))
  /\ (forall r1 r2 r3,
         user_endpoint net
           (user_request accessToken (baseUrl config ++ "/oauth/userinfo"))
         = Resolves r1 ->
         user_endpoint net
           (user_request accessToken (baseUrl config ++ "/userinfo"))
         = Resolves r2 ->
         user_endpoint net
           (user_request accessToken (baseUrl config ++ "/oauth/userinfo/"))
         = Resolves r3 ->
         status r1 = 404 -> status r2 = 401 -> status r3 = 200 ->
         json r3 = Ok {| UserData.id := Some "42";
                         UserData.email := Some "a@b.com";
                         UserData.name := None;
                         UserData.username := None;
                         UserData.avatar := None |} ->
         fst (getUserInfo config accessToken net)
         = Ok {| SentryUser.id := "42";
                 SentryUser.email := "a@b.com";
                 SentryUser.name := "a";
                 SentryUser.username := None;
                 SentryUser.avatar := None |}).
Proof.
  split; [|split].
  - intros before userUrl after userData L B U.
    split.
    { unfold getUserInfo. rewrite L. now apply loop_finds_first. }
    unfold usable_profile in U.
    destruct (user_endpoint net _) as [e|r]; [discriminate|].
    destruct (ok r); [|discriminate].
    destruct (json r) as [d|e]; [|discriminate].
    destruct (Js.truthy (UserData.id d)) eqn:Ti; [|discriminate].
    destruct (Js.truthy (UserData.email d)) eqn:Te; [|discriminate].
    injection U as <-. simpl.
    destruct (UserData.id d); [|discriminate].
    destruct (UserData.email d); [|discriminate].
    repeat split.
  - apply default_name_cases.
  - intros r1 r2 r3 A1 A2 A3 S1 S2 S3 J.
    unfold getUserInfo, possibleEndpoints.
    rewrite (loop_finds_first net accessToken
               [baseUrl config ++ "/oauth/userinfo";
                baseUrl config ++ "/userinfo"]
               (baseUrl config ++ "/oauth/userinfo/")
               [baseUrl config ++ "/userinfo/";
                baseUrl config ++ "/api/0/user/";
                baseUrl config ++ "/api/0/users/me/"]
               {| UserData.id := Some "42";
                  UserData.email := Some "a@b.com";
                  UserData.name := None;
                  UserData.username := None;
                  UserData.avatar := None |}).
    + reflexivity.
    + intros u [<-|[<-|[]]]; unfold usable_profile, ok.
      * now rewrite A1, S1.
      * now rewrite A2, S2.
    + unfold usable_profile, ok. now rewrite A3, S3, J.
Qed.

End ProfileResolution.

Section ProfileResolutionExamples.
Import IO SentryOAuthService Samples.

Lemma getUserInfo_first_usable_witness :
  fst (getUserInfo Samples.config (Some "T") (provider no_token))
  = Ok {| SentryUser.id := "42";
          SentryUser.email := "a@b.com";
          SentryUser.name := "a";
          SentryUser.username := None;
          SentryUser.avatar := None |}.
Proof.
  apply (proj2 (proj2 (getUserInfo_first_usable Samples.config
                         (provider no_token) (Some "T")))
           {| status := 404; statusText := "Not Found"; text := "not found";
              json := Throw (mkError "Unexpected token") |}
           {| status := 401; statusText := "Unauthorized"; text := "denied";
              json := Throw (mkError "Unexpected token") |}
           {| status := 200; statusText := "OK"; text := "";
              json := Ok payload42 |});
    reflexivity.
Defined.

End ProfileResolutionExamples.

(* ================================================================= *)
(** * The complete flow and its fast path *)

Section CompleteFlow.
Import IO SentryOAuthService.

Variable config : Config.

Lemma exchange_succeeds net code r tokenResponse :
  token_endpoint net (token_request config code) = Resolves r ->
  ok r = true ->
  json r = Ok tokenResponse ->
  exchangeCodeForToken config code net
  = (Ok tokenResponse, [token_request config code]).
Proof.
  intros F K J.
  unfold exchangeCodeForToken, try_catch, bind, fetch, await_json.
  rewrite F, K, J. reflexivity.
Qed.

(** The loop over a non-empty list of endpoints asks the first one. *)
Lemma loop_sends net accessToken userUrl endpoints lastError :
  exists rest,
    snd (getUserInfo_loop accessToken (userUrl :: endpoints) lastError net)
    = user_request accessToken userUrl :: rest.
Proof.
  cbn [getUserInfo_loop]. unfold bind.
  destruct (try_endpoint_total net accessToken userUrl) as [a ->].
  destruct a as [user|e].
  - now exists [].
  - destruct (getUserInfo_loop accessToken endpoints (Some e) net)
      as [r sent'].
    now exists sent'.
Qed.

Lemma getUserInfo_sends net accessToken :
  exists rest,
    snd (getUserInfo config accessToken net)
    = user_request accessToken (baseUrl config ++ "/oauth/userinfo") :: rest.
Proof. apply loop_sends. Qed.

(** C7 (as the code has it).  After a successful token exchange,
    [completeOAuthFlow] looks at the first of [user], [user_info],
    [profile] that is present in the token response.  When that payload
    has non-empty [id] and [email], no profile endpoint is requested and
    the flow returns the profile built from it with the access token;
    otherwise the flow is [getUserInfo] with the access token of the
    response, which requests the first candidate endpoint at least.  So the
    token request is the only request sent exactly when that first present
    payload has non-empty [id] and [email]. *)
Theorem completeOAuthFlow_fast_path net code r tokenResponse :
  token_endpoint net (token_request config code) = Resolves r ->
  ok r = true ->
  json r = Ok tokenResponse ->
  let accessToken := TokenData.access_token tokenResponse in
  (forall userInfo,
      usable_embedded tokenResponse = Some userInfo ->
      completeOAuthFlow config code net
      = (Ok (embedded_profile userInfo, accessToken),
         [token_request config code]))
  /\ (usable_embedded tokenResponse = None ->
      completeOAuthFlow config code net
      = (match fst (getUserInfo config accessToken net) with
         | Ok user => Ok (user, accessToken)
         | Throw e => Throw e
         end,
         token_request config code :: snd (getUserInfo config accessToken net))
      /\ exists rest,
          snd (getUserInfo config accessToken net)
          = user_request accessToken (baseUrl config ++ "/oauth/userinfo")
              :: rest)
  /\ (snd (completeOAuthFlow config code net) = [token_request config code]
      <-> usable_embedded tokenResponse <> None).
Proof.
  intros F K J accessToken.
  pose proof (exchange_succeeds net code r tokenResponse F K J) as X.
  assert (Slow : usable_embedded tokenResponse = None ->
                 completeOAuthFlow config code net
                 = (match fst (getUserInfo config accessToken net) with
                    | Ok user => Ok (user, accessToken)
                    | Throw e => Throw e
                    end,
                    token_request config code
                      :: snd (getUserInfo config accessToken net))).
  { unfold usable_embedded, completeOAuthFlow, bind. rewrite X.
    assert (P : fetch_profile config tokenResponse net
                = (match fst (getUserInfo config accessToken net) with
                   | Ok user => Ok (user, accessToken)
                   | Throw e => Throw e
                   end, snd (getUserInfo config accessToken net))).
    { unfold fetch_profile, bind. fold accessToken.
      destruct (getUserInfo config accessToken net) as [[user|e] sent']; simpl;
        [now rewrite app_nil_r | reflexivity]. }
    destruct (embedded_user tokenResponse) as [userInfo|].
    - destruct (Js.truthy (UserData.id userInfo)
                && Js.truthy (UserData.email userInfo)); [discriminate|].
      intros _. now rewrite P.
    - intros _. now rewrite P. }
  assert (Fast : forall userInfo,
             usable_embedded tokenResponse = Some userInfo ->
             completeOAuthFlow config code net
             = (Ok (embedded_profile userInfo, accessToken),
                [token_request config code])).
  { intros userInfo. unfold usable_embedded, completeOAuthFlow, bind. rewrite X.
    destruct (embedded_user tokenResponse) as [d|]; [|discriminate].
    destruct (Js.truthy (UserData.id d) && Js.truthy (UserData.email d));
      [|discriminate].
    now intros [= ->]. }
  split; [exact Fast|]. split.
  - intro N. split; [now apply Slow | apply getUserInfo_sends].
  - destruct (usable_embedded tokenResponse) as [userInfo|] eqn:E.
    + rewrite (Fast userInfo eq_refl). simpl. split; [discriminate|reflexivity].
    + rewrite (Slow eq_refl). simpl.
      destruct (getUserInfo_sends net accessToken) as [rest ->].
      split; [discriminate | congruence].
Qed.

End CompleteFlow.

Section CompleteFlowExamples.
Import IO SentryOAuthService Samples.

Lemma completeOAuthFlow_fast_path_witness :
  completeOAuthFlow Samples.config "C" (provider token_with_user_info)
  = (Ok ({| SentryUser.id := "42"; SentryUser.email := "a@b.com";
            SentryUser.name := "a"; SentryUser.username := None;
            SentryUser.avatar := None |}, Some "T"),
     [token_request Samples.config "C"]).
Proof.
  apply (proj1 (completeOAuthFlow_fast_path Samples.config
                  (provider token_with_user_info) "C"
                  {| status := 200; statusText := "OK"; text := "";
                     json := Ok token_with_user_info |}
                  token_with_user_info eq_refl eq_refl eq_refl)
           payload42 eq_refl).
Defined.

(** The token response carries a payload with [id] and [email] under
    [profile], and an empty object under [user]: the flow does not use it
    and asks the profile endpoints. *)
Lemma embedded_profile_not_used :
  embeds_usable_profile token_with_profile
  /\ snd (completeOAuthFlow Samples.config "C" (provider token_with_profile))
     = [ token_request Samples.config "C";
         user_request (Some "T") "https://sentry.io/oauth/userinfo";
         user_request (Some "T") "https://sentry.io/userinfo";
         user_request (Some "T") "https://sentry.io/oauth/userinfo/" ]
  /\ snd (completeOAuthFlow Samples.config "C" (provider token_with_profile))
     <> [ token_request Samples.config "C" ].
Proof.
  split; [|split].
  - exists payload42. repeat split. right. right. reflexivity.
  - reflexivity.
  - discriminate.
Qed.

End CompleteFlowExamples.

(* ================================================================= *)
(** * The query of the authorization URL *)

Section UrlEncoding.
Import Js Url.

Ltac ascii_cases c := destruct c as [[|] [|] [|] [|] [|] [|] [|] [|]].

Example number_to_string_404 : number_to_string 404 = "404".
Proof. reflexivity. Qed.

Example encodeURIComponent_sample :
  encodeURIComponent "a b&c=d/e~'()*!?" = "a%20b%26c%3Dd%2Fe~'()*!%3F".
Proof. reflexivity. Qed.

Example params_toString_sample :
  params_toString [("a b", "c&d=e+f*~"); ("g", "")] = "a+b=c%26d%3De%2Bf*%7E&g=".
Proof. reflexivity. Qed.

Example parse_urlencoded_sample :
  parse_urlencoded "a+b=c%26d&&e&f=g=h"
  = [("a b", "c&d"); ("e", ""); ("f", "g=h")].
Proof. reflexivity. Qed.

Lemma form_byte_decoded c t :
  percent_decode (plus_to_space (form_byte c) ++ t) = String c (percent_decode t).
Proof. ascii_cases c; reflexivity. Qed.

Lemma form_byte_chars c : str_all form_char (form_byte c) = true.
Proof. ascii_cases c; reflexivity. Qed.

Lemma form_char_query c : form_char c = true -> query_char c = true.
Proof. unfold query_char. now intros ->. Qed.

Lemma query_char_kept c : query_char c = true -> query_encode_set c = false.
Proof. ascii_cases c; intro E; try discriminate E; reflexivity. Qed.

Lemma query_char_plain c : query_char c = true -> negb (mem_char c "?#") = true.
Proof. ascii_cases c; intro E; try discriminate E; reflexivity. Qed.

Lemma form_char_not_amp c : form_char c = true -> (c =? "&")%char = false.
Proof. ascii_cases c; intro E; try discriminate E; reflexivity. Qed.

Lemma form_char_not_eq c : form_char c = true -> (c =? "=")%char = false.
Proof. ascii_cases c; intro E; try discriminate E; reflexivity. Qed.

Lemma str_all_app p a b : str_all p (a ++ b) = str_all p a && str_all p b.
Proof.
  induction a as [|c a IH]; simpl; [reflexivity|].
  now rewrite IH, andb_assoc.
Qed.

Lemma str_all_impl (p q : ascii -> bool) s :
  (forall c, p c = true -> q c = true) ->
  str_all p s = true -> str_all q s = true.
Proof.
  intro I. induction s as [|c s IH]; simpl; [reflexivity|].
  intro E. apply andb_prop in E as [E1 E2].
  now rewrite (I _ E1), (IH E2).
Qed.

Lemma form_encode_chars s : str_all form_char (form_encode s) = true.
Proof.
  induction s as [|c s IH]; simpl; [reflexivity|].
  now rewrite str_all_app, form_byte_chars, IH.
Qed.

Lemma plus_to_space_app a b :
  plus_to_space (a ++ b) = plus_to_space a ++ plus_to_space b.
Proof. induction a as [|c a IH]; simpl; [reflexivity | now rewrite IH]. Qed.

Lemma form_decode_encode s : form_decode (form_encode s) = s.
Proof.
  unfold form_decode. induction s as [|c s IH]; simpl; [reflexivity|].
  now rewrite plus_to_space_app, form_byte_decoded, IH.
Qed.

Lemma before_char_found c a b :
  str_all (fun x => negb (x =? c)%char) a = true ->
  before_char c (a ++ String c b) = a.
Proof.
  induction a as [|x a IH]; simpl.
  - now rewrite Ascii.eqb_refl.
  - intro E. apply andb_prop in E as [E1 E2].
    apply negb_true_iff in E1. now rewrite E1, IH.
Qed.

Lemma after_char_found c a b :
  str_all (fun x => negb (x =? c)%char) a = true ->
  after_char c (a ++ String c b) = Some b.
Proof.
  induction a as [|x a IH]; simpl.
  - now rewrite Ascii.eqb_refl.
  - intro E. apply andb_prop in E as [E1 E2].
    apply negb_true_iff in E1. now rewrite E1, IH.
Qed.

Lemma before_char_absent c a :
  str_all (fun x => negb (x =? c)%char) a = true -> before_char c a = a.
Proof.
  induction a as [|x a IH]; simpl; [reflexivity|].
  intro E. apply andb_prop in E as [E1 E2].
  apply negb_true_iff in E1. now rewrite E1, IH.
Qed.

Lemma after_char_skip c a b :
  str_all (fun x => negb (x =? c)%char) a = true ->
  after_char c (a ++ b) = after_char c b.
Proof.
  induction a as [|x a IH]; simpl; [reflexivity|].
  intro E. apply andb_prop in E as [E1 E2].
  apply negb_true_iff in E1. now rewrite E1, IH.
Qed.

Lemma split_on_absent c a :
  str_all (fun x => negb (x =? c)%char) a = true -> split_on c a = [a].
Proof.
  induction a as [|x a IH]; simpl; [reflexivity|].
  intro E. apply andb_prop in E as [E1 E2].
  apply negb_true_iff in E1. now rewrite E1, IH.
Qed.

Lemma split_on_found c a b :
  str_all (fun x => negb (x =? c)%char) a = true ->
  split_on c (a ++ String c b) = a :: split_on c b.
Proof.
  induction a as [|x a IH]; simpl.
  - now rewrite Ascii.eqb_refl.
  - intro E. apply andb_prop in E as [E1 E2].
    apply negb_true_iff in E1. now rewrite E1, IH.
Qed.

Lemma query_encode_kept s :
  str_all query_char s = true -> query_encode s = s.
Proof.
  induction s as [|c s IH]; simpl; [reflexivity|].
  intro E. apply andb_prop in E as [E1 E2].
  now rewrite (query_char_kept _ E1), IH.
Qed.

Lemma form_encode_no (c : ascii) s :
  (forall x, form_char x = true -> (x =? c)%char = false) ->
  str_all (fun x => negb (x =? c)%char) (form_encode s) = true.
Proof.
  intro N. apply (str_all_impl form_char); [|apply form_encode_chars].
  intros x E. now rewrite (N x E).
Qed.

(** The text written for one pair. *)
Lemma pair_no_amp n v :
  str_all (fun x => negb (x =? "&")%char)
          (form_encode n ++ "=" ++ form_encode v) = true.
Proof.
  rewrite str_all_app, (form_encode_no "&" n form_char_not_amp). simpl.
  apply (form_encode_no "&" v form_char_not_amp).
Qed.

Lemma pair_chars n v :
  str_all query_char (form_encode n ++ "=" ++ form_encode v) = true.
Proof.
  rewrite str_all_app. simpl.
  rewrite !(str_all_impl form_char query_char _ form_char_query
              (form_encode_chars _)).
  reflexivity.
Qed.

Lemma parse_pair_written n v :
  parse_pair (form_encode n ++ "=" ++ form_encode v) = [(n, v)].
Proof.
  unfold parse_pair.
  assert (E : (form_encode n ++ "=" ++ form_encode v =? "") = false).
  { destruct (form_encode n); reflexivity. }
  rewrite E.
  change (form_encode n ++ "=" ++ form_encode v)
    with (form_encode n ++ String "=" (form_encode v)).
  rewrite before_char_found, after_char_found
    by apply (form_encode_no "=" n form_char_not_eq).
  now rewrite !form_decode_encode.
Qed.

Lemma params_toString_chars ps : str_all query_char (params_toString ps) = true.
Proof.
  induction ps as [|[n v] rest IH]; [reflexivity|].
  cbn [params_toString]. destruct rest as [|p rest].
  - apply pair_chars.
  - rewrite str_all_app, pair_chars.
    change ("&" ++ params_toString (p :: rest))
      with (String "&" (params_toString (p :: rest))).
    cbn [str_all]. now rewrite IH.
Qed.

(** Parsing what [toString] wrote gives the list back. *)
Lemma parse_params_toString ps : parse_urlencoded (params_toString ps) = ps.
Proof.
  unfold parse_urlencoded.
  induction ps as [|[n v] rest IH]; [reflexivity|].
  cbn [params_toString]. destruct rest as [|p rest].
  - rewrite (split_on_absent _ _ (pair_no_amp n v)). cbn [flat_map].
    now rewrite parse_pair_written.
  - change ("&" ++ params_toString (p :: rest))
      with (String "&" (params_toString (p :: rest))).
    rewrite (split_on_found _ _ _ (pair_no_amp n v)). cbn [flat_map].
    now rewrite parse_pair_written, IH.
Qed.

Lemma plain_not_hash c :
  negb (mem_char c "?#") = true -> negb (c =? "#")%char = true.
Proof. ascii_cases c; intro E; try discriminate E; reflexivity. Qed.

Lemma plain_not_question c :
  negb (mem_char c "?#") = true -> negb (c =? "?")%char = true.
Proof. ascii_cases c; intro E; try discriminate E; reflexivity. Qed.

(** The parameters of a URL made of a plain base, a path and a serialized
    list. *)
Lemma searchParams_written base ps :
  str_all (fun c => negb (mem_char c "?#")) base = true ->
  searchParams (base ++ "/oauth/authorize/?" ++ params_toString ps) = ps.
Proof.
  intro B. unfold searchParams, url_query.
  assert (Q : str_all (fun c => negb (mem_char c "?#")) (params_toString ps)
              = true).
  { apply (str_all_impl query_char); [|apply params_toString_chars].
    apply query_char_plain. }
  assert (H : str_all (fun c => negb (c =? "#")%char)
                      (base ++ "/oauth/authorize/?" ++ params_toString ps)
              = true).
  { rewrite str_all_app. apply andb_true_intro. split.
    - apply (str_all_impl _ _ _ plain_not_hash B).
    - cbn. apply (str_all_impl _ _ _ plain_not_hash Q). }
  rewrite (before_char_absent _ _ H).
  rewrite after_char_skip by apply (str_all_impl _ _ _ plain_not_question B).
  cbn. rewrite query_encode_kept by apply params_toString_chars.
  apply parse_params_toString.
Qed.

End UrlEncoding.

Section AuthorizationUrl.
Import Js Url SentryOAuthService.

Lemma truthy_nonempty v :
  truthy v = true <-> exists s, v = Some s /\ s <> "".
Proof.
  unfold truthy. destruct v as [s|].
  - rewrite negb_true_iff, String.eqb_neq. split.
    + intro N. now exists s.
    + now intros (s' & [= <-] & N).
  - split; [discriminate | now intros (s & E & _)].
Qed.

Lemma constructor_credentials env config :
  constructor env = Ok config ->
  exists id, clientId config = Some id /\ id <> "".
Proof.
  unfold constructor. cbn [clientId clientSecret].
  destruct (truthy (SENTRY_OAUTH_CLIENT_ID env)) eqn:T; [|discriminate].
  destruct (truthy (SENTRY_OAUTH_CLIENT_SECRET env)); [|discriminate].
  intros [= <-]. cbn [clientId]. now apply truthy_nonempty.
Qed.

(** C4 (as the code has it).  For a service built by the constructor,
    with a base URL that has no query or fragment of its own, and for every
    non-empty [state]: the query of the URL returned by
    [getAuthorizationUrl], parsed as the URL parser and [URLSearchParams]
    do, is the list [response_type=code], [client_id], [redirect_uri],
    [scope], [state], with the configured client id and redirect URI, the
    five scopes separated by spaces, and the [state] that was passed. *)
Theorem authorization_url_parameters env config state :
  constructor env = Ok config ->
  plain_base config = true ->
  state <> "" ->
  let url := getAuthorizationUrl config (Some state) in
  let params := searchParams url in
  exists id,
    clientId config = Some id
    /\ params = [ ("response_type", "code");
                  ("client_id", id);
                  ("redirect_uri", Js.to_string (redirectUri config));
                  ("scope",
                   "org:read project:read team:read member:read event:read");
                  ("state", state) ]
    /\ params_get params "response_type" = Some "code"
    /\ params_get params "client_id" = clientId config
    /\ params_get params "redirect_uri"
       = Some (Js.to_string (redirectUri config))
    /\ (forall uri, redirectUri config = Some uri ->
                    params_get params "redirect_uri" = redirectUri config)
    /\ params_get params "scope"
       = Some "org:read project:read team:read member:read event:read"
    /\ params_get params "state" = Some state.
Proof.
  intros C B N url params.
  destruct (constructor_credentials env config C) as (id & Ei & _).
  exists id. split; [assumption|].
  assert (P : params = [ ("response_type", "code");
                         ("client_id", id);
                         ("redirect_uri", Js.to_string (redirectUri config));
                         ("scope",
                          "org:read project:read team:read member:read event:read");
                         ("state", state) ]).
  { subst params url. unfold getAuthorizationUrl.
    assert (T : truthy (Some state) = true).
    { apply truthy_nonempty. now exists state. }
    rewrite T, Ei. cbn [params_append app Js.to_string].
    now apply searchParams_written. }
  split; [exact P|]. rewrite P, Ei.
  repeat split.
  intros uri ->. reflexivity.
Qed.

End AuthorizationUrl.

Section AuthorizationUrlExamples.
Import Js Url SentryOAuthService Samples.

Lemma authorization_url_parameters_witness :
  params_get (searchParams (getAuthorizationUrl Samples.config (Some "S 1+&=%")))
             "state" = Some "S 1+&=%".
Proof.
  destruct (authorization_url_parameters Samples.env Samples.config "S 1+&=%"
              eq_refl eq_refl ltac:(discriminate))
    as (id & _ & _ & _ & _ & _ & _ & _ & E).
  exact E.
Defined.

(** With the empty string as [state] the URL has no [state] parameter at
    all. *)
Lemma authorization_url_without_state :
  getAuthorizationUrl Samples.config (Some "")
  = "https://sentry.io/oauth/authorize/?response_type=code&client_id=client-1&redirect_uri=http%3A%2F%2Flocalhost%3A3001%2Fapi%2Fauth%2Fcallback&scope=org%3Aread+project%3Aread+team%3Aread+member%3Aread+event%3Aread"
  /\ params_get (searchParams (getAuthorizationUrl Samples.config (Some "")))
                "state" = None
  /\ params_get (searchParams (getAuthorizationUrl Samples.config (Some "")))
                "state" <> Some "".
Proof.
  split; [reflexivity|]. split; [reflexivity|]. vm_compute. discriminate.
Qed.

End AuthorizationUrlExamples.

(* ================================================================= *)
(** * The end-to-end scenario *)

Section Scenario.
Import IO Server SimpleUserStore Samples.

(** Login, callback with the issued [state], then the current user: the
    provider refuses the first two profile endpoints and answers the third
    with [{id: "42", email: "a@b.com"}]; the directory gets user 1 with
    token ["T"], the session is bound to it, and GET /api/auth/me shows it
    without the token. *)
Example login_then_callback_then_me :
  let (_, s1) := api_auth_login Samples.config "S" new_session in
  let o := api_auth_callback Samples.env Samples.config
             (provider token_with_profile) "t1" "t2"
             SimpleUserStore.constructor s1 matching in
  s1 = awaiting
  /\ response o = Redirect "http://localhost:5173/auth/success"
  /\ session o = {| oauthState := None; userId := Some 1;
                    sentryId := Some "42" |}
  /\ option_map User.access_token (findUserBySentryId (store o) "42")
     = Some (Some "T")
  /\ api_auth_me (store o) (session o)
     = (Json 200 (UserBody {| SafeUser.id := 1;
                              SafeUser.sentry_id := "42";
                              SafeUser.email := "a@b.com";
                              SafeUser.name := "a";
                              SafeUser.username := None;
                              SafeUser.avatar_url := None;
                              SafeUser.created_at := "t1";
                              SafeUser.updated_at := "t2" |}),
        Some (session o))
  /\ api_auth_logout None (session o)
     = (Json 200 (MessageBody "Logged out successfully"), None).
Proof. repeat split. Qed.

End Scenario.

(* ================================================================= *)
(** * More on the callback: what failures leave, what success binds *)

Section CallbackMore.
Import IO Server SimpleUserStore Directory.

Variables (env : Env) (config : SentryOAuthService.Config).

Lemma strict_eq_iff (a b : option string) : strict_eq a b = true <-> a = b.
Proof.
  destruct a as [x|], b as [y|]; simpl; split; intro E;
    try discriminate; try reflexivity.
  - apply String.eqb_eq in E. now subst.
  - injection E as ->. apply String.eqb_refl.
Qed.

Lemma upsert_fields s sentryUser accessToken t1 t2 user s' :
  upsert s sentryUser accessToken t1 t2 = Ok (user, s') ->
  User.email user = SentryUser.email sentryUser
  /\ User.name user = SentryUser.name sentryUser
  /\ User.username user = SentryUser.username sentryUser
  /\ User.avatar_url user =
     Avatar.or (Avatar.avatarUrl_of (SentryUser.avatar sentryUser))
               (SentryUser.avatar sentryUser)
  /\ User.access_token user = accessToken.
Proof.
  intro U.
  destruct (findUserBySentryId s (SentryUser.id sentryUser)) as [ex|] eqn:F.
  - destruct (upsert_existing s sentryUser accessToken t1 t2 ex F)
      as (u & s1 & U' & _ & _ & _ & ? & ? & ? & ? & ? & _).
    rewrite U in U'. injection U' as <- <-. tauto.
  - destruct (upsert_new s sentryUser accessToken t1 t2 F)
      as (u & s1 & U' & _ & _ & _ & ? & ? & ? & ? & ? & _).
    rewrite U in U'. injection U' as <- <-. tauto.
Qed.

(** X1.  A callback that fails leaves the directory as it was and binds
    nothing: [userId] and [sentryId] of the session are unchanged.  When
    the [state] is refused or the [code] is missing, no request is sent to
    the provider at all; when the OAuth flow throws, the requests are those
    of the flow and nothing is written. *)
Theorem callback_failure_changes_nothing net t1 t2 st sess query :
  let o := api_auth_callback env config net t1 t2 st sess query in
  (state_accepted sess query = false \/ Js.truthy (code query) = false ->
   sent o = []
   /\ store o = st
   /\ userId (session o) = userId sess
   /\ sentryId (session o) = sentryId sess)
  /\ (forall error reqs,
         state_accepted sess query = true ->
         Js.truthy (code query) = true ->
         SentryOAuthService.completeOAuthFlow config (Js.str (code query)) net
         = (Throw error, reqs) ->
         sent o = reqs
         /\ store o = st
         /\ userId (session o) = userId sess
         /\ sentryId (session o) = sentryId sess).
Proof.
  intro o. subst o. unfold api_auth_callback.
  rewrite <- negb_andb. fold (state_accepted sess query). split.
  - intros [A|C].
    + rewrite A. simpl. repeat split.
    + destruct (state_accepted sess query); simpl; [|repeat split].
      rewrite C. simpl. repeat split.
  - intros error reqs A C F. rewrite A, C, F. simpl. repeat split.
Qed.

(** X2.  A callback that is accepted and whose OAuth flow returns a
    profile and a token, on a directory the server can reach: the browser
    is sent to the success page; the session is bound to a user that the
    new directory finds both by its local id and by the provider id of the
    profile; that user carries the email of the profile and the token of
    the flow; and GET /api/auth/me on the resulting directory and session
    answers 200 with that user. *)
Theorem callback_success_binds net t1 t2 st sess query sentryUser accessToken reqs :
  reachable st ->
  state_accepted sess query = true ->
  Js.truthy (code query) = true ->
  SentryOAuthService.completeOAuthFlow config (Js.str (code query)) net
  = (Ok (sentryUser, accessToken), reqs) ->
  let o := api_auth_callback env config net t1 t2 st sess query in
  exists user,
    response o = Redirect (frontendUrl env ++ "/auth/success")
    /\ session o = {| oauthState := None;
                      userId := Some (User.id user);
                      sentryId := Some (SentryUser.id sentryUser) |}
    /\ findUserById (store o) (User.id user) = Some user
    /\ findUserBySentryId (store o) (SentryUser.id sentryUser) = Some user
    /\ User.sentry_id user = SentryUser.id sentryUser
    /\ User.email user = SentryUser.email sentryUser
    /\ User.access_token user = accessToken
    /\ reachable (store o)
    /\ api_auth_me (store o) (session o)
       = (Json 200 (UserBody (safeUser user)), Some (session o)).
Proof.
  intros R A C F o. subst o. unfold api_auth_callback.
  rewrite <- negb_andb. fold (state_accepted sess query).
  rewrite A, C, F. simpl.
  destruct (upsert_never_throws st sentryUser accessToken t1 t2)
    as (user & st' & U).
  rewrite U. simpl. exists user.
  pose proof (reachable_ok st R) as O.
  destruct (upsert_indexed _ _ _ _ _ _ _ O U) as (Fs & Fi & Es).
  destruct (upsert_fields _ _ _ _ _ _ _ U) as (Ee & _ & _ & _ & Et).
  pose proof (upsert_ok _ _ _ _ _ _ _ O U) as (I' & _).
  pose proof (stored_id_below_next _ _ _ I' Fi) as (_ & P & _).
  repeat split; try assumption.
  - now apply (reach_upsert st sentryUser accessToken t1 t2 user st').
  - unfold api_auth_me, requireAuth. simpl.
    destruct (Nat.eqb_spec (User.id user) 0) as [Z|_]; [lia|]. simpl.
    now rewrite Fi.
Qed.

(** X3.  GET /api/auth/login with a non-empty fresh state: the session
    holds that state as the pending one, whatever was pending before, and
    keeps its bound user; a callback passes the state check on that session
    exactly when its [state] is the fresh one; and, the base URL having no
    query or fragment, the returned [authUrl] carries that state as its
    [state] parameter. *)
Theorem login_sets_pending_state uuid sess :
  uuid <> "" ->
  let sess' := snd (api_auth_login config uuid sess) in
  oauthState sess' = Some uuid
  /\ userId sess' = userId sess
  /\ sentryId sess' = sentryId sess
  /\ (forall query,
         state_accepted sess' query = true <-> state query = Some uuid)
  /\ (SentryOAuthService.plain_base config = true ->
      exists authUrl,
        fst (api_auth_login config uuid sess) = Json 200 (AuthUrlBody authUrl)
        /\ Url.params_get (Url.searchParams authUrl) "state" = Some uuid).
Proof.
  intros N sess'. subst sess'. simpl. repeat split.
  - unfold state_accepted. simpl. intro E.
    apply andb_prop in E as [_ E]. now apply strict_eq_iff.
  - intros E. unfold state_accepted. simpl. rewrite E. simpl.
    apply andb_true_intro. split.
    + apply negb_true_iff. now apply String.eqb_neq.
    + apply String.eqb_refl.
  - intro B. eexists. split; [reflexivity|].
    unfold SentryOAuthService.getAuthorizationUrl.
    assert (T : Js.truthy (Some uuid) = true).
    { apply negb_true_iff. now apply String.eqb_neq. }
    rewrite T. cbn [Url.params_append app Js.to_string].
    now rewrite (searchParams_written _ _ B).
Qed.

End CallbackMore.

Section CallbackMoreExamples.
Import IO Server SimpleUserStore Directory Samples.

Lemma callback_failure_changes_nothing_witness :
  let o := api_auth_callback Samples.env Samples.config (refusing "invalid_grant")
             "t1" "t2" one_user awaiting matching in
  store o = one_user /\ userId (session o) = None.
Proof.
  destruct (proj2 (callback_failure_changes_nothing Samples.env Samples.config
                     (refusing "invalid_grant") "t1" "t2" one_user awaiting
                     matching)
              (mkError (SentryOAuthService.token_failure_message
                          400 "invalid_grant"))
              [SentryOAuthService.token_request Samples.config "C"]
              eq_refl eq_refl eq_refl)
    as (_ & A & B & _).
  split; assumption.
Defined.

Lemma callback_success_binds_witness :
  exists user,
    session (api_auth_callback Samples.env Samples.config
               (provider token_with_user_info) "t1" "t2"
               SimpleUserStore.constructor awaiting matching)
    = {| oauthState := None; userId := Some (User.id user);
         sentryId := Some "42" |}
    /\ User.access_token user = Some "T".
Proof.
  destruct (callback_success_binds Samples.env Samples.config
              (provider token_with_user_info) "t1" "t2"
              SimpleUserStore.constructor awaiting matching
              {| SentryUser.id := "42"; SentryUser.email := "a@b.com";
                 SentryUser.name := "a"; SentryUser.username := None;
                 SentryUser.avatar := None |}
              (Some "T")
              [SentryOAuthService.token_request Samples.config "C"]
              reach_constructor eq_refl eq_refl eq_refl)
    as (user & _ & S & _ & _ & _ & _ & T & _).
  exists user. split; assumption.
Defined.

Lemma login_sets_pending_state_witness :
  oauthState (snd (api_auth_login Samples.config "S2" awaiting)) = Some "S2"
  /\ state_accepted (snd (api_auth_login Samples.config "S2" awaiting)) matching
     = false.
Proof.
  destruct (login_sets_pending_state Samples.config "S2" awaiting
              ltac:(discriminate))
    as (A & _ & _ & B & _).
  split; [exact A|].
  destruct (state_accepted _ matching) eqn:E; [|reflexivity].
  apply B in E. discriminate E.
Defined.

End CallbackMoreExamples.

(* ================================================================= *)
(** * More on the provider client *)

Section ProviderClientMore.
Import IO SentryOAuthService ProfileEndpoints.

Variable config : Config.

Lemma exchange_sent net code :
  snd (exchangeCodeForToken config code net) = [token_request config code].
Proof.
  unfold exchangeCodeForToken, try_catch, bind, fetch, await_json, throw, ret.
  destruct (token_endpoint net _) as [e|r]; [reflexivity|].
  destruct (ok r); simpl; [|reflexivity].
  destruct (json r); reflexivity.
Qed.

(** X4.  [exchangeCodeForToken] makes one attempt: whatever the outcome,
    exactly one request is sent, the POST to [<base>/oauth/token/] whose
    form-encoded body parses back to [grant_type=authorization_code], the
    client id, the client secret, the code as it was given and the redirect
    URI.  A rejected [fetch] and a body that is not JSON are rethrown as
    they are; a response whose status is outside 200..299 throws the
    message with the status and the body; otherwise the parsed body is
    returned. *)
Theorem exchange_single_attempt net code :
  snd (exchangeCodeForToken config code net) = [token_request config code]
  /\ (exists b,
         body (token_request config code) = Some b
         /\ Url.parse_urlencoded b
            = [ ("grant_type", "authorization_code");
                ("client_id", Js.to_string (clientId config));
                ("client_secret", Js.to_string (clientSecret config));
                ("code", code);
                ("redirect_uri", Js.to_string (redirectUri config)) ])
  /\ (forall e,
         token_endpoint net (token_request config code) = Rejects e ->
         fst (exchangeCodeForToken config code net) = Throw e)
  /\ (forall r,
         token_endpoint net (token_request config code) = Resolves r ->
         fst (exchangeCodeForToken config code net)
         = if ok r then json r
           else Throw (mkError (token_failure_message (status r) (text r)))).
Proof.
  split; [apply exchange_sent|]. split; [|split].
  - eexists. split; [reflexivity|]. apply parse_params_toString.
  - intros e F.
    unfold exchangeCodeForToken, try_catch, bind, fetch. now rewrite F.
  - intros r F.
    unfold exchangeCodeForToken, try_catch, bind, fetch, await_json, throw, ret.
    rewrite F. destruct (ok r); simpl; [|reflexivity].
    destruct (json r); reflexivity.
Qed.

Lemma try_endpoint_error net accessToken userUrl :
  usable_profile (user_endpoint net (user_request accessToken userUrl)) = None ->
  try_endpoint accessToken userUrl net
  = (Ok (Continue (endpoint_error userUrl
                     (user_endpoint net (user_request accessToken userUrl)))),
     [user_request accessToken userUrl]).
Proof.
  unfold usable_profile, endpoint_error, try_endpoint, try_catch, bind, fetch,
    await_json.
  destruct (user_endpoint net _) as [e|r]; [reflexivity|].
  destruct (ok r); [|reflexivity].
  destruct (json r) as [d|e]; [|reflexivity]. unfold ret.
  destruct (Js.truthy (UserData.id d)), (Js.truthy (UserData.email d));
    simpl; try discriminate; reflexivity.
Qed.




Lemma loop_prefix net accessToken endpoints :
  forall lastError,
  exists k,
    k <= length endpoints
    /\ (endpoints <> [] -> 1 <= k)
    /\ snd (getUserInfo_loop accessToken endpoints lastError net)
       = map (user_request accessToken) (firstn k endpoints).
Proof.
  induction endpoints as [|u rest IH]; intro lastError.
  - exists 0. split; [simpl; lia|]. split; [intro N; now contradiction N|].
    unfold getUserInfo_loop, all_endpoints_failed.
    destruct accessToken; reflexivity.
  - cbn [getUserInfo_loop]. unfold bind.
    destruct (try_endpoint_total net accessToken u) as [a ->].
    destruct a as [user|e].
    + exists 1. simpl. split; [lia|]. split; [lia|reflexivity].
    + destruct (IH (Some e)) as (k & L & _ & E).
      exists (S k). simpl. split; [lia|]. split; [lia|].
      destruct (getUserInfo_loop accessToken rest (Some e) net) as [r sent'].
      simpl in *. now rewrite E.
Qed.

(** X6.  The requests [getUserInfo] sends are the requests for the first
    [k] candidate endpoints, in the order of the list, for some [k] from 1
    to 6: it starts with the first endpoint, skips none, asks none twice
    and stops at the first usable answer. *)
Theorem getUserInfo_requests_prefix net accessToken :
  exists k,
    1 <= k <= 6
    /\ snd (getUserInfo config accessToken net)
       = map (user_request accessToken) (firstn k (possibleEndpoints config))
    /\ (forall userData,
           usable_profile
             (user_endpoint net
                (user_request accessToken (baseUrl config ++ "/oauth/userinfo")))
           = Some userData -> k = 1).
Proof.
  destruct (loop_prefix net accessToken (possibleEndpoints config) None)
    as (k & L & P & E).
  exists k. split; [|split].
  - split; [apply P; discriminate | exact L].
  - exact E.
  - intros d U. unfold getUserInfo, possibleEndpoints in E.
    cbn [getUserInfo_loop] in E. unfold bind in E.
    rewrite (try_endpoint_usable _ _ _ _ U) in E. simpl in E.
    destruct k as [|[|k]]; [discriminate | reflexivity | discriminate].
Qed.

Lemma normalize_valid userData :
  Js.truthy (UserData.id userData) = true ->
  Js.truthy (UserData.email userData) = true ->
  SentryUser.id (normalize userData) <> ""
  /\ SentryUser.email (normalize userData) <> "".
Proof.
  unfold Js.truthy. simpl.
  destruct (UserData.id userData) as [i|]; [|discriminate].
  destruct (UserData.email userData) as [m|]; [|discriminate].
  simpl. rewrite !negb_true_iff, !String.eqb_neq. tauto.
Qed.

Lemma loop_result_valid net accessToken endpoints :
  forall lastError user,
    fst (getUserInfo_loop accessToken endpoints lastError net) = Ok user ->
    SentryUser.id user <> "" /\ SentryUser.email user <> "".
Proof.
  induction endpoints as [|u rest IH]; intros lastError user.
  - unfold getUserInfo_loop, all_endpoints_failed.
    destruct accessToken; discriminate.
  - cbn [getUserInfo_loop]. unfold bind.
    destruct (usable_profile (user_endpoint net (user_request accessToken u)))
      as [d|] eqn:U.
    + rewrite (try_endpoint_usable _ _ _ _ U). simpl. intros [= <-].
      unfold usable_profile in U.
      destruct (user_endpoint net _) as [e|r]; [discriminate|].
      destruct (ok r); [|discriminate].
      destruct (json r) as [d'|e]; [|discriminate].
      destruct (Js.truthy (UserData.id d')) eqn:Ti; [|discriminate].
      destruct (Js.truthy (UserData.email d')) eqn:Te; [|discriminate].
      injection U as <-. now apply normalize_valid.
    + rewrite (try_endpoint_error _ _ _ U).
      specialize (IH (Some (endpoint_error u
                              (user_endpoint net (user_request accessToken u))))
                     user).
      destruct (getUserInfo_loop accessToken rest _ net) as [r sent'].
      simpl in *. exact IH.
Qed.

(** X7.  Whenever [completeOAuthFlow] returns, by the fast path or after
    asking the profile endpoints, the profile it returns has a non-empty
    [id] and a non-empty [email], and the access token it returns is the
    [access_token] of the token response. *)
Theorem completeOAuthFlow_result_valid net code user accessToken :
  fst (completeOAuthFlow config code net) = Ok (user, accessToken) ->
  SentryUser.id user <> ""
  /\ SentryUser.email user <> ""
  /\ exists tokenResponse,
      fst (exchangeCodeForToken config code net) = Ok tokenResponse
      /\ accessToken = TokenData.access_token tokenResponse.
Proof.
  unfold completeOAuthFlow, bind.
  destruct (exchangeCodeForToken config code net) as [[t|e] sent0];
    [|discriminate].
  assert (Slow : forall r,
             fst (let (r, sent') := fetch_profile config t net in
                  (r, (sent0 ++ sent')%list)) = Ok r ->
             SentryUser.id (fst r) <> "" /\ SentryUser.email (fst r) <> ""
             /\ snd r = TokenData.access_token t).
  { intros r. unfold fetch_profile, bind, getUserInfo.
    destruct (getUserInfo_loop (TokenData.access_token t)
                (possibleEndpoints config) None net) as [[u|e] sent1] eqn:L;
      simpl; [|discriminate].
    intros [= <-]. simpl.
    pose proof (loop_result_valid net (TokenData.access_token t)
                  (possibleEndpoints config) None u) as V.
    rewrite L in V. destruct (V eq_refl). tauto. }
  destruct (embedded_user t) as [d|].
  - destruct (Js.truthy (UserData.id d)) eqn:Ti;
      destruct (Js.truthy (UserData.email d)) eqn:Te; simpl.
    + intros [= <- <-].
      unfold embedded_profile. simpl.
      unfold Js.truthy in Ti, Te.
      destruct (UserData.id d) as [i|]; [|discriminate].
      destruct (UserData.email d) as [m|]; [|discriminate].
      apply negb_true_iff, String.eqb_neq in Ti, Te.
      repeat split; try assumption. now exists t.
    + intro E. destruct (Slow _ E) as (A & B & C). simpl in *.
      repeat split; try assumption. now exists t.
    + intro E. destruct (Slow _ E) as (A & B & C). simpl in *.
      repeat split; try assumption. now exists t.
    + intro E. destruct (Slow _ E) as (A & B & C). simpl in *.
      repeat split; try assumption. now exists t.
  - intro E. destruct (Slow _ E) as (A & B & C). simpl in *.
    repeat split; try assumption. now exists t.
Qed.

(** X8.  When the token exchange throws, [completeOAuthFlow] throws the
    same error and has sent the token request only: no profile endpoint is
    asked after a failed exchange. *)
Theorem completeOAuthFlow_stops_at_exchange net code e :
  fst (exchangeCodeForToken config code net) = Throw e ->
  completeOAuthFlow config code net = (Throw e, [token_request config code]).
Proof.
  intro F. pose proof (exchange_sent net code) as S.
  unfold completeOAuthFlow, bind.
  destruct (exchangeCodeForToken config code net) as [r sent0].
  simpl in *. now subst.
Qed.

End ProviderClientMore.

Section ProviderClientMoreExamples.
Import IO SentryOAuthService ProfileEndpoints Samples MoreSamples.


Lemma getUserInfo_requests_prefix_witness :
  exists k,
    1 <= k <= 6
    /\ snd (getUserInfo Samples.config (Some "T") (provider no_token))
       = map (user_request (Some "T"))
             (firstn k (possibleEndpoints Samples.config)).
Proof.
  destruct (getUserInfo_requests_prefix Samples.config (provider no_token)
              (Some "T")) as (k & B & E & _).
  exists k. split; assumption.
Defined.

Lemma completeOAuthFlow_result_valid_witness :
  SentryUser.id (normalize payload42) <> ""
  /\ SentryUser.email (normalize payload42) <> "".
Proof.
  destruct (completeOAuthFlow_result_valid Samples.config
              (provider token_with_profile) "C"
              (normalize payload42) (Some "T") eq_refl)
    as (A & B & _).
  split; assumption.
Defined.

Lemma completeOAuthFlow_stops_at_exchange_witness :
  completeOAuthFlow Samples.config "C" offline
  = (Throw (mkError "fetch failed"), [token_request Samples.config "C"]).
Proof.
  apply (completeOAuthFlow_stops_at_exchange Samples.config offline "C"
           (mkError "fetch failed") eq_refl).
Defined.

End ProviderClientMoreExamples.

(* ================================================================= *)
(** * More on the directory *)

Section JsMapDelete.
Context {K V : Type} `{JsMap.Key K}.
Implicit Types (m : JsMap.t K V) (k : K) (v : V).

Lemma get_delete_ne m k k' :
  k <> k' -> JsMap.get (JsMap.delete m k) k' = JsMap.get m k'.
Proof.
  intro N. induction m as [|[k0 v0] r IH]; simpl; [reflexivity|].
  destruct (JsMap.keqb k0 k) eqn:E; simpl.
  - apply JsMap.keqb_spec in E. subst k0. now rewrite (keqb_neq _ _ N).
  - now rewrite IH.
Qed.

Lemma keys_delete_subset m k x :
  In x (JsMap.keys (JsMap.delete m k)) -> In x (JsMap.keys m).
Proof.
  unfold JsMap.keys. induction m as [|[k0 v0] r IH]; simpl; [tauto|].
  destruct (JsMap.keqb k0 k); simpl; [now right|].
  intros [E|I]; [now left | right; now apply IH].
Qed.

Lemma NoDup_keys_delete m k :
  NoDup (JsMap.keys m) -> NoDup (JsMap.keys (JsMap.delete m k)).
Proof.
  unfold JsMap.keys. induction m as [|[k0 v0] r IH]; simpl; [trivial|].
  intro D. inversion D as [|? ? N D']. subst.
  destruct (JsMap.keqb k0 k); simpl; [assumption|].
  constructor; [|now apply IH].
  intro I. apply N. now apply (keys_delete_subset r k).
Qed.

Lemma get_delete_eq m k :
  NoDup (JsMap.keys m) -> JsMap.get (JsMap.delete m k) k = None.
Proof.
  unfold JsMap.keys. induction m as [|[k0 v0] r IH]; simpl; [reflexivity|].
  intro D. inversion D as [|? ? N D']. subst.
  destruct (JsMap.keqb k0 k) eqn:E; simpl.
  - apply JsMap.keqb_spec in E. subst k0.
    destruct (JsMap.get r k) as [v|] eqn:G; [|reflexivity].
    exfalso. apply N. apply get_In in G.
    change k with (fst (k, v)). now apply in_map.
  - rewrite E. now apply IH.
Qed.

End JsMapDelete.

Section DirectoryMore.
Import SimpleUserStore Directory DirectoryIndexes.

Lemma reachable_email_keys s : reachable s -> email_keys_ok s.
Proof.
  unfold email_keys_ok.
  induction 1 as [|s p tok t1 t2 u s' R IH U]; [constructor|].
  unfold Server.upsert in U.
  destruct (findUserBySentryId s (SentryUser.id p)) as [ex|] eqn:F.
  - unfold updateUser in U. unfold findUserBySentryId in F. rewrite F in U.
    injection U as _ <-. simpl.
    destruct (negb (User.email ex =? SentryUser.email p)); [|assumption].
    now apply NoDup_keys_set, NoDup_keys_delete.
  - injection U as _ <-. simpl. now apply NoDup_keys_set.
Qed.

Lemma ids_under_keys (m : JsMap.t nat User.t) :
  (forall k u, In (k, u) m -> User.id u = k) ->
  map User.id (JsMap.values m) = JsMap.keys m.
Proof.
  unfold JsMap.values, JsMap.keys.
  induction m as [|[k u] r IH]; simpl; intro A; [reflexivity|].
  rewrite (A k u) by now left.
  f_equal. apply IH. intros k' u' I. apply A. now right.
Qed.

Lemma reachable_keys s :
  reachable s -> JsMap.keys (users s) = seq 1 (nextId s - 1).
Proof.
  induction 1 as [|s p tok t1 t2 u s' R IH U]; [reflexivity|].
  pose proof (reachable_ok s R) as (I & X & _).
  destruct (findUserBySentryId s (SentryUser.id p)) as [ex|] eqn:F.
  - destruct (upsert_existing s p tok t1 t2 ex F)
      as (u0 & s0 & U' & _ & _ & _ & _ & _ & _ & _ & _ & _ & Hu & _ & Hn).
    rewrite U in U'. injection U' as <- <-.
    rewrite Hu, Hn, <- IH.
    apply (keys_set_present _ _ _ ex). now apply X in F.
  - destruct (upsert_new s p tok t1 t2 F)
      as (u0 & s0 & U' & _ & _ & _ & _ & _ & _ & _ & _ & _ & Hu & _ & Hn).
    rewrite U in U'. injection U' as <- <-.
    rewrite Hu, Hn, (keys_set_absent _ _ _ (next_id_unused s I)), IH.
    destruct I as (P & _).
    replace (S (nextId s) - 1) with (S (nextId s - 1)) by lia.
    rewrite seq_S. do 2 f_equal. lia.
Qed.

(** X9.  In every state the directory can reach, the local ids in use are
    1, 2, ..., [nextId - 1], stored in that order: [findUserById] finds a
    user exactly for those ids, and [getStats] lists the users in the order
    they were created, [totalUsers] being [nextId - 1]. *)
Theorem local_ids_consecutive s :
  reachable s ->
  JsMap.keys (users s) = seq 1 (nextId s - 1)
  /\ totalUsers (getStats s) = nextId s - 1
  /\ map StatsEntry.id (stats_users (getStats s)) = seq 1 (nextId s - 1)
  /\ (forall k, (exists u, findUserById s k = Some u) <-> 1 <= k < nextId s).
Proof.
  intro R. pose proof (reachable_keys s R) as Ks.
  pose proof (reachable_ok s R) as ((P & D & I) & _).
  split; [exact Ks|]. split; [|split].
  - unfold getStats, JsMap.size. simpl.
    rewrite <- (length_map fst (users s)). fold (JsMap.keys (users s)).
    now rewrite Ks, length_seq.
  - unfold getStats. simpl. rewrite map_map.
    change (fun x => StatsEntry.id (stats_entry x)) with User.id.
    rewrite <- Ks. apply ids_under_keys. intros k u H. now apply I in H.
  - intro k. split.
    + intros [u G]. apply get_In, I in G. lia.
    + intro B.
      assert (M : In k (JsMap.keys (users s))).
      { rewrite Ks. apply in_seq. lia. }
      unfold JsMap.keys in M. apply in_map_iff in M as ([k' u] & E & M).
      simpl in E. subst k'. exists u. now apply In_get.
Qed.

(** X10.  A create-or-update for one provider identity touches no other
    user: every other provider id finds what it found before, every local
    id other than that of the returned user finds what it found before, and
    every user that was stored is still stored under its local id with the
    same provider id and creation time. *)
Theorem upsert_frame s sentryUser accessToken t1 t2 user s' :
  reachable s ->
  Server.upsert s sentryUser accessToken t1 t2 = Ok (user, s') ->
  (forall sid, sid <> SentryUser.id sentryUser ->
               findUserBySentryId s' sid = findUserBySentryId s sid)
  /\ (forall k, k <> User.id user ->
                findUserById s' k = findUserById s k)
  /\ (forall k u, findUserById s k = Some u ->
                  exists u', findUserById s' k = Some u'
                             /\ User.id u' = User.id u
                             /\ User.sentry_id u' = User.sentry_id u
                             /\ User.created_at u' = User.created_at u).
Proof.
  intros R U. pose proof (reachable_ok s R) as (I & X & _).
  unfold findUserBySentryId, findUserById.
  destruct (findUserBySentryId s (SentryUser.id sentryUser)) as [ex|] eqn:F.
  - destruct (upsert_existing s sentryUser accessToken t1 t2 ex F)
      as (u0 & s0 & U' & Ei & Es & Ec & _ & _ & _ & _ & _ & _ & Hu & Hx & _).
    rewrite U in U'. injection U' as <- <-.
    destruct (proj1 (X _ _) F) as [G S].
    rewrite Hu, Hx. split; [|split].
    + intros sid N. apply get_set_ne. congruence.
    + intros k N. apply get_set_ne. congruence.
    + intros k u Gk. destruct (Nat.eq_dec (User.id ex) k) as [<-|N].
      * rewrite get_set_eq. exists user. unfold findUserById in G.
        rewrite G in Gk. injection Gk as <-. tauto.
      * rewrite (get_set_ne _ _ _ _ N). now exists u.
  - destruct (upsert_new s sentryUser accessToken t1 t2 F)
      as (u0 & s0 & U' & Ei & _ & _ & _ & _ & _ & _ & _ & _ & Hu & Hx & _).
    rewrite U in U'. injection U' as <- <-.
    rewrite Hu, Hx. split; [|split].
    + intros sid N. apply get_set_ne. congruence.
    + intros k N. apply get_set_ne. congruence.
    + intros k u Gk.
      pose proof (stored_id_below_next _ _ _ I Gk) as (_ & _ & B).
      rewrite get_set_ne by lia. now exists u.
Qed.

(** X11.  A login of a known provider identity whose email did not change
    leaves the index by email as it is: after the update [findUserByEmail]
    answers, for every email, what it answered before, so it still returns
    the record as it was before this login, while [findUserBySentryId]
    returns the updated record with the new token and [updated_at]. *)
Theorem update_keeps_email_index s sentryUser accessToken t1 t2 existing :
  reachable s ->
  findUserBySentryId s (SentryUser.id sentryUser) = Some existing ->
  User.email existing = SentryUser.email sentryUser ->
  exists user s',
    Server.upsert s sentryUser accessToken t1 t2 = Ok (user, s')
    /\ findUserBySentryId s' (SentryUser.id sentryUser) = Some user
    /\ User.access_token user = accessToken
    /\ User.updated_at user = t1
    /\ usersByEmail s' = usersByEmail s
    /\ forall e, findUserByEmail s' e = findUserByEmail s e.
Proof.
  intros R F E.
  destruct (upsert_existing s sentryUser accessToken t1 t2 existing F)
    as (user & s' & U & _ & _ & _ & _ & _ & _ & _ & Et & Eu & _).
  exists user, s'.
  destruct (upsert_indexed _ _ _ _ _ _ _ (reachable_ok s R) U) as (Fs & _).
  assert (M : usersByEmail s' = usersByEmail s).
  { unfold Server.upsert in U. rewrite F in U.
    unfold updateUser in U. unfold findUserBySentryId in F. rewrite F in U.
    injection U as _ <-. simpl. rewrite E, String.eqb_refl. reflexivity. }
  repeat split; try assumption.
  intro e. unfold findUserByEmail. now rewrite M.
Qed.

(** X12.  A login of a known provider identity with a new email files the
    user under the new email: afterwards [findUserByEmail] returns the
    updated record for the new email and nothing for the old one, and
    answers as before for every other email. *)
Theorem update_moves_email s sentryUser accessToken t1 t2 existing :
  reachable s ->
  findUserBySentryId s (SentryUser.id sentryUser) = Some existing ->
  User.email existing <> SentryUser.email sentryUser ->
  exists user s',
    Server.upsert s sentryUser accessToken t1 t2 = Ok (user, s')
    /\ User.id user = User.id existing
    /\ findUserByEmail s' (SentryUser.email sentryUser) = Some user
    /\ findUserByEmail s' (User.email existing) = None
    /\ forall e, e <> SentryUser.email sentryUser -> e <> User.email existing ->
                 findUserByEmail s' e = findUserByEmail s e.
Proof.
  intros R F N.
  destruct (upsert_existing s sentryUser accessToken t1 t2 existing F)
    as (user & s' & U & Ei & _).
  exists user, s'.
  pose proof (reachable_email_keys s R) as D. unfold email_keys_ok in D.
  assert (M : usersByEmail s'
              = JsMap.set (JsMap.delete (usersByEmail s) (User.email existing))
                          (SentryUser.email sentryUser) user).
  { unfold Server.upsert in U. rewrite F in U.
    unfold updateUser in U. unfold findUserBySentryId in F. rewrite F in U.
    injection U as <- <-. simpl.
    apply String.eqb_neq in N. now rewrite N. }
  unfold findUserByEmail. rewrite M.
  split; [assumption|]. split; [assumption|]. split; [apply get_set_eq|].
  split.
  - rewrite get_set_ne by congruence. now apply get_delete_eq.
  - intros e N1 N2. rewrite get_set_ne by congruence.
    apply get_delete_ne. congruence.
Qed.

End DirectoryMore.

Section DirectoryMoreExamples.
Import SimpleUserStore Directory Samples MoreSamples.

Lemma local_ids_consecutive_witness :
  JsMap.keys (users one_user) = [1] /\ totalUsers (getStats one_user) = 1.
Proof.
  destruct (local_ids_consecutive one_user one_user_reachable)
    as (A & B & _).
  split; [exact A | exact B].
Defined.

Lemma upsert_frame_witness :
  findUserBySentryId (snd (createUser one_user homonym (Some "T'") "t3" "t4"))
                     "u1"
  = findUserBySentryId one_user "u1".
Proof.
  apply (proj1 (upsert_frame one_user homonym (Some "T'") "t3" "t4"
                  (fst (createUser one_user homonym (Some "T'") "t3" "t4"))
                  (snd (createUser one_user homonym (Some "T'") "t3" "t4"))
                  one_user_reachable eq_refl)).
  discriminate.
Defined.

Lemma update_keeps_email_index_witness :
  option_map User.access_token (findUserByEmail logged_in_twice "u@x.com")
  = Some (Some "T")
  /\ option_map User.access_token (findUserBySentryId logged_in_twice "u1")
     = Some (Some "T2")
  /\ exists user s',
      Server.upsert one_user profile (Some "T2") "t3" "t4" = Ok (user, s')
      /\ forall e, findUserByEmail s' e = findUserByEmail one_user e.
Proof.
  split; [reflexivity|]. split; [reflexivity|].
  destruct (update_keeps_email_index one_user profile (Some "T2") "t3" "t4"
              (fst (createUser SimpleUserStore.constructor profile (Some "T")
                      "t1" "t2"))
              one_user_reachable eq_refl eq_refl)
    as (user & s' & U & _ & _ & _ & _ & A).
  exists user, s'. split; assumption.
Defined.

Lemma update_moves_email_witness :
  exists user s',
    Server.upsert one_user moved (Some "T2") "t3" "t4" = Ok (user, s')
    /\ findUserByEmail s' "u@y.org" = Some user
    /\ findUserByEmail s' "u@x.com" = None.
Proof.
  destruct (update_moves_email one_user moved (Some "T2") "t3" "t4"
              (fst (createUser SimpleUserStore.constructor profile (Some "T")
                      "t1" "t2"))
              one_user_reachable eq_refl ltac:(discriminate))
    as (user & s' & U & _ & A & B & _).
  exists user, s'. repeat split; assumption.
Defined.

End DirectoryMoreExamples.

(* ================================================================= *)
(** * The Sentry API client and the dashboard routes *)

Section ApiClient.
Import IO Js Url SentryAPIService.

Variable svc : SentryAPIService.t.

Lemma makeRequest_sent net endpoint accessToken :
  snd (makeRequest svc net endpoint accessToken)
  = [api_request svc endpoint accessToken].
Proof.
  unfold makeRequest. destruct (net _) as [e|r]; [reflexivity|].
  destruct (negb (ok r)); reflexivity.
Qed.

(** X13.  [makeRequest] sends exactly one request, a GET of
    [<base>/api/0<endpoint>] with the token as bearer.  A rejected [fetch]
    is rethrown, and a successful response gives its parsed body or the
    parse error.  For the statuses 401, 403 and 404 the error thrown has a
    fixed message that depends on the status (and, for 403, on the
    endpoint) only: two responses with one of these statuses and different
    bodies or status texts give the same error. *)
Theorem makeRequest_outcome net endpoint accessToken :
  let req := api_request svc endpoint accessToken in
  snd (makeRequest svc net endpoint accessToken) = [req]
  /\ url req = baseUrl svc ++ "/api/0" ++ endpoint
  /\ In ("Authorization", "Bearer " ++ Js.to_string accessToken) (headers req)
  /\ (forall e, net req = Rejects e ->
                fst (makeRequest svc net endpoint accessToken) = Throw e)
  /\ (forall r, net req = Resolves r -> ok r = true ->
                fst (makeRequest svc net endpoint accessToken) = json r)
  /\ (forall r, net req = Resolves r -> ok r = false ->
                exists m, fst (makeRequest svc net endpoint accessToken)
                          = Throw (mkError m))
  /\ (forall net' r r',
         net req = Resolves r -> net' req = Resolves r' ->
         status r = status r' ->
         In (status r) [401; 403; 404] ->
         fst (makeRequest svc net' endpoint accessToken)
         = fst (makeRequest svc net endpoint accessToken)).
Proof.
  intro req. split; [apply makeRequest_sent|].
  split; [reflexivity|]. split; [now left|].
  unfold makeRequest. fold req. repeat split.
  - intros e ->. reflexivity.
  - intros r -> K. now rewrite K.
  - intros r -> K. rewrite K. simpl. now eexists.
  - intros net' r r' -> -> E I.
    assert (K : forall x : Response Json.t,
               In (status x) [401; 403; 404] -> ok x = false).
    { intros x H. unfold ok.
      destruct H as [H|[H|[H|[]]]]; rewrite <- H; reflexivity. }
    rewrite (K r I), (K r') by now rewrite <- E.
    simpl. unfold api_failure_message. rewrite <- E.
    destruct I as [H|[H|[H|[]]]]; rewrite <- H; reflexivity.
Qed.

Lemma truthy_and_isArray v :
  Json.truthy v && Json.isArray v = Json.isArray v.
Proof.
  destruct v as [[|b|sg n|s|l|o]|]; simpl; try reflexivity;
    apply andb_false_r.
Qed.

(** X14.  What [getReplays] makes of the data it received: an array is
    returned as it is; for an object the result is always an array, the
    [data] property when that is an array, else the [results] property when
    that is an array, else the empty array; [null] gives the empty array.
    An error of the request is passed on unchanged. *)
Theorem getReplays_shapes net orgSlug accessToken options :
  (forall e,
      fst (makeRequest svc net (replays_endpoint orgSlug options) accessToken)
      = Throw e ->
      fst (getReplays svc net orgSlug accessToken options) = Throw e)
  /\ (forall response,
         fst (makeRequest svc net (replays_endpoint orgSlug options) accessToken)
         = Ok response ->
         fst (getReplays svc net orgSlug accessToken options)
         = Ok (replays_of response)
         /\ match response with
            | Json.Arr items => replays_of response = Json.Arr items
            | Json.Null => replays_of response = Json.Arr []
            | Json.Obj fields =>
              exists items,
                replays_of response = Json.Arr items
                /\ (forall d, Json.field fields "data" = Some (Json.Arr d) ->
                              items = d)
                /\ (Json.isArray (Json.field fields "data") = false ->
                    forall r, Json.field fields "results" = Some (Json.Arr r) ->
                              items = r)
                /\ (Json.isArray (Json.field fields "data") = false ->
                    Json.isArray (Json.field fields "results") = false ->
                    items = [])
            | _ => True
            end)
  /\ snd (getReplays svc net orgSlug accessToken options)
     = [api_request svc (replays_endpoint orgSlug options) accessToken].
Proof.
  split; [|split].
  - intros e F. unfold getReplays.
    destruct (makeRequest svc net _ accessToken) as [[v|e'] reqs]; simpl in *;
      congruence.
  - intros response F. split.
    + unfold getReplays.
      destruct (makeRequest svc net _ accessToken) as [[v|e'] reqs]; simpl in *;
        congruence.
    + destruct response as [|b|sg n|s|items|fields]; try exact I; try reflexivity.
      unfold replays_of. rewrite !truthy_and_isArray.
      destruct (Json.field fields "data") as [[|b|sg n|s|d|o]|] eqn:D;
        destruct (Json.field fields "results") as [[|b'|sg' n'|s'|r|o']|] eqn:R;
        simpl; eexists; (split; [reflexivity|]);
        repeat split; intros; try discriminate; congruence.
  - unfold getReplays.
    pose proof (makeRequest_sent net (replays_endpoint orgSlug options)
                  accessToken) as S.
    destruct (makeRequest svc net _ accessToken) as [[v|e'] reqs]; exact S.
Qed.

Lemma string_app_assoc (a b c : string) : (a ++ b) ++ c = a ++ (b ++ c).
Proof. induction a as [|x a IH]; simpl; [reflexivity | now rewrite IH]. Qed.

Lemma searchParams_of_query prefix ps :
  str_all (fun c => negb (mem_char c "?#")) prefix = true ->
  searchParams (prefix ++ String "?" (params_toString ps)) = ps.
Proof.
  intro B. unfold searchParams, url_query.
  assert (Q : str_all (fun c => negb (mem_char c "?#")) (params_toString ps)
              = true).
  { apply (str_all_impl query_char); [|apply params_toString_chars].
    apply query_char_plain. }
  assert (H : str_all (fun c => negb (c =? "#")%char)
                      (prefix ++ String "?" (params_toString ps)) = true).
  { rewrite str_all_app. apply andb_true_intro. split.
    - apply (str_all_impl _ _ _ plain_not_hash B).
    - cbn. apply (str_all_impl _ _ _ plain_not_hash Q). }
  rewrite (before_char_absent _ _ H).
  rewrite after_char_found by apply (str_all_impl _ _ _ plain_not_question B).
  cbn. rewrite query_encode_kept by apply params_toString_chars.
  apply parse_params_toString.
Qed.

(** X15.  The request of [getIssues], for a base URL and an organization
    slug without [?] or [#]: the query of its URL parses back to the
    parameters [statsPeriod], [limit], [sort], [query], [project], in this
    order and once each.  [limit] is the given limit capped at 100, and 100
    when no limit or 0 is given; [statsPeriod] and [sort] default to 14d
    and date, [query] to the empty string; [project] is the given project
    id, and -1 when there is none. *)
Theorem getIssues_query orgSlug accessToken options :
  str_all (fun c => negb (mem_char c "?#")) (baseUrl svc ++ orgSlug) = true ->
  let params :=
    searchParams (url (api_request svc (issues_endpoint orgSlug options)
                                   accessToken)) in
  params
  = [ ("statsPeriod", Js.to_string (Js.or (statsPeriod options) (Some "14d")));
      ("limit", number_to_string (Nat.min (number_or (limit options) 100) 100));
      ("sort", Js.to_string (Js.or (sort options) (Some "date")));
      ("query", match query options with Some q => q | None => "" end);
      ("project", if Js.truthy (projectId options)
                  then Js.str (projectId options) else "-1") ]
  /\ Nat.min (number_or (limit options) 100) 100 <= 100
  /\ (limit options = None \/ limit options = Some 0 ->
      params_get params "limit" = Some "100")
  /\ (forall n, limit options = Some n -> 0 < n ->
                params_get params "limit"
                = Some (number_to_string (Nat.min n 100))).
Proof.
  intros B params.
  assert (P : params
              = [ ("statsPeriod",
                   Js.to_string (Js.or (statsPeriod options) (Some "14d")));
                  ("limit",
                   number_to_string (Nat.min (number_or (limit options) 100) 100));
                  ("sort", Js.to_string (Js.or (sort options) (Some "date")));
                  ("query", match query options with Some q => q | None => "" end);
                  ("project", if Js.truthy (projectId options)
                              then Js.str (projectId options) else "-1") ]).
  { subst params. unfold api_request, issues_endpoint. cbn [url].
    rewrite str_all_app in B. apply andb_prop in B as [B1 B2].
    replace (baseUrl svc ++ "/api/0" ++ "/organizations/" ++ orgSlug
               ++ "/issues/?" ++ params_toString (issue_params options))
      with ((baseUrl svc ++ "/api/0/organizations/" ++ orgSlug ++ "/issues/")
              ++ String "?" (params_toString (issue_params options))).
    2:{ rewrite !string_app_assoc. reflexivity. }
    rewrite searchParams_of_query.
    - unfold issue_params. destruct (Js.truthy (projectId options)); reflexivity.
    - rewrite !str_all_app, B1, B2. reflexivity. }
  split; [exact P|]. split; [apply Nat.le_min_r|].
  rewrite P. split.
  - intros [->| ->]; reflexivity.
  - intros n -> Pn. destruct n; [lia|]. reflexivity.
Qed.

Lemma fold_count_levels issues :
  forall acc,
    let l := fold_left count_level issues acc in
    error l + warning l + info l + debug l + fatal l
    = error acc + warning acc + info acc + debug acc + fatal acc
      + length issues
    /\ warning l = warning acc + issues_at "warning" issues
    /\ info l = info acc + issues_at "info" issues
    /\ debug l = debug acc + issues_at "debug" issues
    /\ fatal l = fatal acc + issues_at "fatal" issues.
Proof.
  unfold issues_at.
  induction issues as [|issue rest IH]; intro acc.
  - simpl. repeat split; lia.
  - cbn [fold_left]. specialize (IH (count_level acc issue)).
    cbv zeta in IH. destruct IH as (S & W & N & D & F).
    cbv zeta. rewrite S, W, N, D, F. clear S W N D F.
    cbn [filter]. unfold count_level.
    remember (Js.to_string (Js.or (level issue) (Some "error"))) as lv.
    destruct (String.eqb_spec lv "error") as [->|N1];
      [simpl; repeat split; lia|].
    destruct (String.eqb_spec lv "warning") as [->|N2];
      [simpl; repeat split; lia|].
    destruct (String.eqb_spec lv "info") as [->|N3];
      [simpl; repeat split; lia|].
    destruct (String.eqb_spec lv "debug") as [->|N4];
      [simpl; repeat split; lia|].
    destruct (String.eqb_spec lv "fatal") as [->|N5];
      [simpl; repeat split; lia|].
    simpl. repeat split; lia.
Qed.

(** X16.  [calculateIssuesByLevel] counts every issue exactly once: the
    five counts add up to the number of issues.  [warning], [info],
    [debug] and [fatal] count the issues with that level, and [error]
    counts all the others: those with level error, without a level, and
    with any other level. *)
Theorem issues_by_level_partition issues :
  let l := calculateIssuesByLevel issues in
  error l + warning l + info l + debug l + fatal l = length issues
  /\ warning l = issues_at "warning" issues
  /\ info l = issues_at "info" issues
  /\ debug l = issues_at "debug" issues
  /\ fatal l = issues_at "fatal" issues
  /\ error l = length issues - issues_at "warning" issues
               - issues_at "info" issues - issues_at "debug" issues
               - issues_at "fatal" issues.
Proof.
  intro l. subst l. unfold calculateIssuesByLevel.
  destruct (fold_count_levels issues (mkLevels 0 0 0 0 0))
    as (S & W & N & D & F).
  simpl in *. repeat split; lia.
Qed.

End ApiClient.

Section DashboardRoutes.
Import IO Server Dashboard SimpleUserStore.

Variable svc : SentryAPIService.t.

(** X17.  GET /api/dashboard/organizations calls Sentry only for a session
    whose user is stored with a non-empty access token, and then once, with
    that token as bearer; otherwise it answers 401 and sends nothing.  An
    answer that is not the 200 with the organizations has one of three
    fixed error bodies: nothing of the provider's error reaches the
    browser. *)
Theorem dashboard_organizations_guarded net st sess :
  let answer := fst (api_dashboard_organizations svc net st sess) in
  let reqs := snd (api_dashboard_organizations svc net st sess) in
  (reqs = [] /\ api_status answer = 401
   \/ exists id user,
       userId sess = Some id
       /\ findUserById st id = Some user
       /\ Js.truthy (User.access_token user) = true
       /\ reqs = [SentryAPIService.api_request svc "/organizations/"
                    (User.access_token user)]
       /\ (api_status answer = 200 \/ api_status answer = 500))
  /\ (api_status answer <> 200 ->
      In (api_body answer)
         [ ApiError "Authentication required";
           ApiError "No Sentry access token found";
           ApiError "Failed to fetch organizations" ])
  /\ (forall organizations,
         api_body answer = Organizations organizations ->
         exists accessToken,
           fst (SentryAPIService.getOrganizations svc net accessToken)
           = Ok organizations).
Proof.
  intros answer reqs. subst answer reqs.
  unfold api_dashboard_organizations, stored_token, requireAuth.
  destruct (userId sess) as [id|]; simpl.
  2:{ split; [left; now split|]. split; [intros _; now left | discriminate]. }
  destruct (id =? 0)%nat; simpl.
  { split; [left; now split|]. split; [intros _; now left | discriminate]. }
  destruct (findUserById st id) as [user|] eqn:F; simpl.
  2:{ split; [left; now split|].
      split; [intros _; right; now left | discriminate]. }
  destruct (Js.truthy (User.access_token user)) eqn:T; simpl.
  2:{ split; [left; now split|].
      split; [intros _; right; now left | discriminate]. }
  pose proof (makeRequest_sent svc net "/organizations/"
                (User.access_token user)) as S.
  unfold SentryAPIService.getOrganizations.
  destruct (SentryAPIService.makeRequest svc net "/organizations/"
              (User.access_token user)) as [[v|e] sent0] eqn:M; simpl in *.
  - split; [right; exists id, user; repeat split; auto|].
    split; [intro N; now contradiction N|].
    intros organizations [= <-]. exists (User.access_token user).
    now rewrite M.
  - split; [right; exists id, user; repeat split; auto|].
    split; [intros _; right; right; now left | discriminate].
Qed.

End DashboardRoutes.

Section ApiClientExamples.
Import IO Js Url SentryAPIService Dashboard Samples MoreSamples.

Example issues_endpoint_sample :
  issues_endpoint "acme"
    {| statsPeriod := None; limit := Some 250; sort := None;
       query := None; projectId := Some "7" |}
  = "/organizations/acme/issues/?statsPeriod=14d&limit=100&sort=date&query=&project=7".
Proof. reflexivity. Qed.

Lemma makeRequest_outcome_witness :
  fst (makeRequest api (api_answering 401 "token abc expired" Json.Null)
         "/organizations/" (Some "T"))
  = fst (makeRequest api (api_answering 401 "other" Json.Null)
           "/organizations/" (Some "T")).
Proof.
  apply (proj2 (proj2 (proj2 (proj2 (proj2 (proj2
           (makeRequest_outcome api (api_answering 401 "other" Json.Null)
              "/organizations/" (Some "T")))))))
           (api_answering 401 "token abc expired" Json.Null)
           {| status := 401; statusText := "Status"; text := "other";
              json := Ok Json.Null |}
           {| status := 401; statusText := "Status";
              text := "token abc expired"; json := Ok Json.Null |}
           eq_refl eq_refl eq_refl).
  now left.
Defined.

Lemma getReplays_shapes_witness :
  fst (getReplays api
         (api_answering 200 ""
            (Json.Obj [ ("results", Json.Arr [Json.Num false 1]);
                        ("data", Json.Arr [Json.Num false 2]) ]))
         "acme" (Some "T")
         {| replay_statsPeriod := None; replay_limit := None;
            replay_sort := None; projectSlug := None |})
  = Ok (Json.Arr [Json.Num false 2]).
Proof.
  rewrite (proj1 (proj1 (proj2 (getReplays_shapes api
             (api_answering 200 ""
                (Json.Obj [ ("results", Json.Arr [Json.Num false 1]);
                            ("data", Json.Arr [Json.Num false 2]) ]))
             "acme" (Some "T")
             {| replay_statsPeriod := None; replay_limit := None;
                replay_sort := None; projectSlug := None |}))
           _ eq_refl)).
  reflexivity.
Defined.

Lemma getIssues_query_witness :
  params_get
    (searchParams (url (api_request api
                          (issues_endpoint "acme"
                             {| statsPeriod := None; limit := Some 250;
                                sort := None; query := None;
                                projectId := None |})
                          (Some "T"))))
    "limit" = Some "100".
Proof.
  destruct (getIssues_query api "acme" (Some "T")
              {| statsPeriod := None; limit := Some 250; sort := None;
                 query := None; projectId := None |} eq_refl)
    as (_ & _ & _ & A).
  apply (A 250 eq_refl). lia.
Defined.

Lemma dashboard_organizations_guarded_witness :
  snd (api_dashboard_organizations api (api_answering 500 "boom" Json.Null)
         one_user stale) = []
  /\ api_body (fst (api_dashboard_organizations api
                      (api_answering 500 "boom" Json.Null) one_user logged_in))
     = ApiError "Failed to fetch organizations".
Proof.
  split; [reflexivity|].
  destruct (proj1 (proj2 (dashboard_organizations_guarded api
                            (api_answering 500 "boom" Json.Null)
                            one_user logged_in))
              ltac:(discriminate))
    as [E|[E|[E|[]]]]; try (symmetry; exact E); discriminate E.
Defined.

End ApiClientExamples.

(* ================================================================= *)
(** * Avatars, a login URL without state, and what the handlers keep *)

Section Remainder.
Import IO Server SimpleUserStore Directory SentryOAuthService.

(** X18.  The avatar of a profile made by [getUserInfo] is the
    [avatarUrl] of the payload's avatar object when that is non-empty, else
    its [url] when that is non-empty, else the payload's avatar as it is;
    and [createUser] stores exactly that avatar as [avatar_url]: its own
    step from [avatar] to [avatar_url] changes nothing on such a
    profile. *)
Theorem stored_avatar s userData accessToken t1 t2 :
  let profile := normalize userData in
  let raw := UserData.avatar userData in
  User.avatar_url (fst (createUser s profile accessToken t1 t2))
  = SentryUser.avatar profile
  /\ (Js.truthy (Avatar.avatarUrl_of raw) = true ->
      SentryUser.avatar profile
      = Some (Avatar.Str (Js.str (Avatar.avatarUrl_of raw))))
  /\ (Js.truthy (Avatar.avatarUrl_of raw) = false ->
      Js.truthy (Avatar.url_of raw) = true ->
      SentryUser.avatar profile
      = Some (Avatar.Str (Js.str (Avatar.url_of raw))))
  /\ (Js.truthy (Avatar.avatarUrl_of raw) = false ->
      Js.truthy (Avatar.url_of raw) = false ->
      SentryUser.avatar profile = raw).
Proof.
  intros profile raw. subst profile raw. simpl.
  destruct (UserData.avatar userData) as [[a|au u]|]; simpl.
  - repeat split; intros; try discriminate; reflexivity.
  - unfold Avatar.or. simpl.
    destruct au as [au|], u as [u|]; simpl;
      repeat match goal with
             | |- context [au =? ""] => destruct (au =? "") eqn:?; simpl
             | |- context [u =? ""] => destruct (u =? "") eqn:?; simpl
             end;
      repeat split; intros; try discriminate; try reflexivity;
        unfold Js.truthy in *; simpl in *;
        repeat match goal with
               | E : ?x = _ |- context [?x] => rewrite E
               end; simpl; try reflexivity; try discriminate.
  - repeat split; intros; try discriminate; reflexivity.
Qed.

(** X19.  Called without a state, or with the empty string, and with a
    base URL that has no query or fragment, [getAuthorizationUrl] returns a
    URL whose query has the four parameters [response_type], [client_id],
    [redirect_uri] and [scope] and no [state] parameter. *)
Theorem authorization_url_stateless config state :
  plain_base config = true ->
  Js.truthy state = false ->
  Url.searchParams (getAuthorizationUrl config state)
  = [ ("response_type", "code");
      ("client_id", Js.to_string (clientId config));
      ("redirect_uri", Js.to_string (redirectUri config));
      ("scope", "org:read project:read team:read member:read event:read") ]
  /\ Url.params_get (Url.searchParams (getAuthorizationUrl config state)) "state"
     = None.
Proof.
  intros B T. unfold getAuthorizationUrl. rewrite T.
  rewrite (searchParams_written _ _ B). now split.
Qed.

(** X20.  The handlers keep the server in states it can reach: from a
    reachable directory and a session whose bound id, if any, is at least
    1, the login handler, the callback (whatever the provider answers) and
    GET /api/auth/me lead to a reachable directory and to a session of that
    kind again; only the callback writes the directory.  A fresh session
    is of that kind. *)
Theorem handlers_keep_invariants st sess :
  reachable st ->
  session_ok sess ->
  session_ok new_session
  /\ (forall config uuid, session_ok (snd (api_auth_login config uuid sess)))
  /\ (forall env config net t1 t2 query,
         reachable (store (api_auth_callback env config net t1 t2 st sess query))
         /\ session_ok
              (session (api_auth_callback env config net t1 t2 st sess query)))
  /\ (forall sess', snd (api_auth_me st sess) = Some sess' -> session_ok sess').
Proof.
  intros R S. split; [apply new_session_ok|]. split; [|split].
  - intros config uuid. now apply login_session_ok.
  - intros env config net t1 t2 query.
    now apply (callback_preserves env config net t1 t2 st sess query).
  - intros sess'. unfold api_auth_me.
    destruct (requireAuth sess); [|now intros [= <-]].
    destruct (userId sess) as [id|]; [|now intros [= <-]].
    destruct (findUserById st id); [now intros [= <-] | discriminate].
Qed.

End Remainder.

Section RemainderExamples.
Import IO Server SimpleUserStore Directory SentryOAuthService Samples.

Lemma stored_avatar_witness :
  SentryUser.avatar
    (normalize {| UserData.id := Some "42"; UserData.email := Some "a@b.com";
                  UserData.name := None; UserData.username := None;
                  UserData.avatar :=
                    Some (Avatar.Obj (Some "") (Some "https://img/42")) |})
  = Some (Avatar.Str "https://img/42").
Proof.
  apply (proj1 (proj2 (proj2 (stored_avatar SimpleUserStore.constructor
           {| UserData.id := Some "42"; UserData.email := Some "a@b.com";
              UserData.name := None; UserData.username := None;
              UserData.avatar :=
                Some (Avatar.Obj (Some "") (Some "https://img/42")) |}
           (Some "T") "t1" "t2"))) eq_refl eq_refl).
Defined.

Lemma authorization_url_stateless_witness :
  Url.params_get (Url.searchParams (getAuthorizationUrl Samples.config None))
                 "state" = None.
Proof.
  apply (proj2 (authorization_url_stateless Samples.config None
                  eq_refl eq_refl)).
Defined.

Lemma handlers_keep_invariants_witness :
  reachable (store (api_auth_callback Samples.env Samples.config
                      (provider token_with_profile) "t1" "t2"
                      one_user logged_in matching)).
Proof.
  apply (proj1 (proj1 (proj2 (proj2
           (handlers_keep_invariants one_user logged_in one_user_reachable
              ltac:(intros n [= <-]; lia))))
           Samples.env Samples.config (provider token_with_profile)
           "t1" "t2" matching)).
Defined.

End RemainderExamples.

Section ExchangeExamples.
Import IO SentryOAuthService Samples.

Lemma exchange_single_attempt_witness :
  fst (exchangeCodeForToken Samples.config "C" offline)
  = Throw (mkError "fetch failed").
Proof.
  apply (proj1 (proj2 (proj2 (exchange_single_attempt Samples.config offline "C")))
           (mkError "fetch failed") eq_refl).
Defined.

Example issues_by_level_sample :
  SentryAPIService.calculateIssuesByLevel
    [ SentryAPIService.mkIssue (Some "fatal");
      SentryAPIService.mkIssue None;
      SentryAPIService.mkIssue (Some "critical");
      SentryAPIService.mkIssue (Some "warning");
      SentryAPIService.mkIssue (Some "") ]
  = SentryAPIService.mkLevels 3 1 0 0 1.
Proof. reflexivity. Qed.

End ExchangeExamples.
